(** * Hyper-Wave-U-Net: shape arithmetic of [UnetAudioSeparator]

    A shallow embedding of [Models/UnetAudioSeparator.py]:
    - [__init__] becomes [init], from the configuration bag to the record
      of attributes;
    - [get_padding] becomes a function into [exn + (shape * shape)];
    - [get_output] is embedded at the level of static tensor shapes, in a
      small writer-and-exception monad that records the weight variables
      the graph assembly declares.

    Number representation.  Python integers are [Z].  The value [rem] of
    [get_padding] is a Python float, a binary64 number: it is carried as
    [float64], a mantissa and a binary exponent, and every operation on it
    rounds to 53 significant bits, to nearest with ties to even.  The
    lengths computed from the bottleneck are [np.int64] values: they are
    carried as [Z] and every operation on them wraps around at [2^63].
    The same arithmetic without rounding and wrap-around is defined beside
    it, under names that start with [exact_]; the code agrees with it as
    long as the numbers are small enough (see [get_padding_exact]). *)

From Stdlib Require Import ZArith QArith Qround List String Bool Lia Lqa.
Import ListNotations.

Open Scope Z_scope.

(** ** Exceptions *)

Inductive exn : Type :=
| AssertionError
| IndexError
| NotImplementedError
| ValueError
| OverflowError.

(** ** Configuration *)

(** The [model_config] dictionary, with the keys [__init__] reads. *)
Record model_config : Type := {
  cfg_num_layers : Z;
  cfg_num_initial_filters : Z;
  cfg_filter_size : Z;
  cfg_merge_filter_size : Z;
  cfg_input_filter_size : Z;
  cfg_output_filter_size : Z;
  cfg_upsampling : string;
  cfg_output_type : string;
  cfg_context : bool;
  cfg_source_names : list string;
  cfg_mono_downmix : bool;
  cfg_output_activation : string;
  cfg_mhe : bool;
  cfg_mhe_model : string;
  cfg_mhe_power : string
}.

Inductive padding_mode : Type := VALID | SAME.

(** The attributes of a [UnetAudioSeparator] object. *)
Record UnetAudioSeparator : Type := {
  num_layers : Z;
  num_initial_filters : Z;
  filter_size : Z;
  merge_filter_size : Z;
  input_filter_size : Z;
  output_filter_size : Z;
  upsampling : string;
  output_type : string;
  context : bool;
  padding : padding_mode;
  source_names : list string;
  num_channels : Z;
  output_activation : string;
  mhe : bool;
  mhe_model : string;
  mhe_power : string
}.

(** [__init__]. *)
Definition init (c : model_config) : UnetAudioSeparator := {|
  num_layers := cfg_num_layers c;
  num_initial_filters := cfg_num_initial_filters c;
  filter_size := cfg_filter_size c;
  merge_filter_size := cfg_merge_filter_size c;
  input_filter_size := cfg_input_filter_size c;
  output_filter_size := cfg_output_filter_size c;
  upsampling := cfg_upsampling c;
  output_type := cfg_output_type c;
  context := cfg_context c;
  padding := if cfg_context c then VALID else SAME;
  source_names := cfg_source_names c;
  num_channels := if cfg_mono_downmix c then 1 else 2;
  output_activation := cfg_output_activation c;
  mhe := cfg_mhe c;
  mhe_model := cfg_mhe_model c;
  mhe_power := cfg_mhe_power c
|}.

(** ** Loops *)

(** [for i in range(n): s = body i s], started at index [i]; the caller
    passes [Z.to_nat n] iterations, which is what [range] yields (none for
    a non-positive [n]). *)
Fixpoint for_range {S : Type} (body : Z -> S -> S) (n : nat) (i : Z) (s : S) : S :=
  match n with
  | O => s
  | Datatypes.S n' => for_range body n' (i + 1) (body i s)
  end.

(** ** [get_padding] *)

(** A shape is a Python sequence of integers, indexed from 0. *)
Definition shape : Type := list Z.

Definition index (sh : shape) (i : nat) : exn + Z :=
  match nth_error sh i with
  | Some v => inr v
  | None => inl IndexError
  end.


(** Exceptions in straight-line code. *)
Definition ebind {A B : Type} (m : exn + A) (f : A -> exn + B) : exn + B :=
  match m with
  | inl e => inl e
  | inr a => f a
  end.

Notation "x <-? m ;; k" := (ebind m (fun x => k))
  (at level 61, m at next level, right associativity).
Notation "' p <-? m ;; k" := (ebind m (fun x => let 'p := x in k))
  (at level 61, p pattern, m at next level, right associativity).

(** [for i in range(n)] with a body that may raise. *)
Fixpoint for_rangeE {S : Type} (body : Z -> S -> exn + S) (n : nat) (i : Z) (s : S)
  : exn + S :=
  match n with
  | O => inr s
  | Datatypes.S n' => s' <-? body i s ;; for_rangeE body n' (i + 1) s'
  end.

(** *** Python floats *)

(** A binary64 number: [Finite m e] is [m * 2^e]; the representation is
    not normalised. *)
Inductive float64 : Type :=
| Finite (m e : Z)
| Infinity (negative : bool)
| NaN.

(** [m / 2^s] rounded to the nearest integer, ties to the even one. *)
Definition round_half_even (m s : Z) : Z :=
  let q := m / 2 ^ s in
  let r := m mod 2 ^ s in
  let h := 2 ^ (s - 1) in
  if r <? h then q
  else if h <? r then q + 1
  else if Z.even q then q else q + 1.

(** The binary64 number nearest to [m * 2^e]: at most 53 significant bits,
    no bit below [2^-1074], and infinity from [2^1024] on. *)
Definition round64 (m e : Z) : float64 :=
  let s := Z.max (if Z.abs m <? 2 ^ 53 then 0 else Z.log2 (Z.abs m) - 52)
                 (- 1074 - e) in
  let m' := if 0 <? s then round_half_even m s else m in
  let e' := if 0 <? s then e + s else e in
  if (0 <=? e') && (2 ^ 1024 <=? Z.abs m' * 2 ^ e')
  then Infinity (m' <? 0)
  else Finite m' e'.

(** [float(z)], also where an integer meets a float in an operation. *)
Definition float_of_int (z : Z) : exn + float64 :=
  match round64 z 0 with
  | Finite m e => inr (Finite m e)
  | _ => inl OverflowError
  end.

Definition fadd (x y : float64) : float64 :=
  match x, y with
  | NaN, _ | _, NaN => NaN
  | Infinity a, Infinity b => if Bool.eqb a b then Infinity a else NaN
  | Infinity a, Finite _ _ => Infinity a
  | Finite _ _, Infinity b => Infinity b
  | Finite m1 e1, Finite m2 e2 =>
      let e := Z.min e1 e2 in
      round64 (m1 * 2 ^ (e1 - e) + m2 * 2 ^ (e2 - e)) e
  end.

Definition fneg (x : float64) : float64 :=
  match x with
  | Finite m e => Finite (- m) e
  | Infinity a => Infinity (negb a)
  | NaN => NaN
  end.

Definition fsub (x y : float64) : float64 := fadd x (fneg y).

(** [x / 2.] *)
Definition fhalf (x : float64) : float64 :=
  match x with
  | Finite m e => round64 m (e - 1)
  | _ => x
  end.

(** *** [np.int64] *)

Definition in_int64 (z : Z) : bool := (- 2 ^ 63 <=? z) && (z <? 2 ^ 63).

Definition wrap64 (z : Z) : Z := (z + 2 ^ 63) mod 2 ^ 64 - 2 ^ 63.

(** [np.asarray(np.ceil(x), dtype=np.int64)]: the ceiling is a float again;
    the conversion of a float that has no [int64] value gives the smallest
    [int64] (as on x86-64). *)
Definition ceil_to_int64 (x : float64) : Z :=
  match x with
  | Finite m e =>
      let c := if 0 <=? e then m * 2 ^ e else - ((- m) / 2 ^ (- e)) in
      if in_int64 c then c else - 2 ^ 63
  | _ => - 2 ^ 63
  end.

(** An [np.int64] and a Python integer [k] met by an operator: [k] is
    converted to [int64] first, which NumPy refuses when it does not fit
    (since version 2; older versions change the type of the result). *)
Definition int64_of_int (k : Z) : exn + Z :=
  if in_int64 k then inr k else inl OverflowError.

(** One pass of the loop of lines 59-61. *)
Definition rem_step (self : UnetAudioSeparator) (_ : Z) (rem : float64)
  : exn + float64 :=
  k <-? float_of_int (merge_filter_size self) ;;
  let rem := fsub (fadd rem k) (Finite 1 0) in
  inr (fhalf (fadd rem (Finite 1 0))).

(** Lines 53-61: the float [rem] after the upsampling blocks were undone. *)
Definition rem_final (self : UnetAudioSeparator) (t : Z) : exn + float64 :=
  rem <-? float_of_int t ;;
  k <-? float_of_int (output_filter_size self) ;;
  let rem := fadd (fsub rem k) (Finite 1 0) in
  for_rangeE (rem_step self) (Z.to_nat (num_layers self)) 0 rem.

(** Line 64: [x = np.asarray(np.ceil(rem), dtype=np.int64)]. *)
Definition bottleneck (self : UnetAudioSeparator) (t : Z) : exn + Z :=
  rem <-? rem_final self t ;;
  inr (ceil_to_int64 rem).

(** One pass of the loop of lines 75-83 on the pair
    [(output_shape, input_shape)]. *)
Definition shape_step (self : UnetAudioSeparator) (i : Z) (s : Z * Z)
  : exn + (Z * Z) :=
  let '(output_shape, input_shape) := s in
  let output_shape := wrap64 (wrap64 (2 * output_shape) - 1) in
  k <-? int64_of_int (merge_filter_size self) ;;
  let output_shape := wrap64 (wrap64 (output_shape - k) + 1) in
  let input_shape := wrap64 (wrap64 (2 * input_shape) - 1) in
  k <-? (if i <? num_layers self - 1
         then int64_of_int (filter_size self)
         else int64_of_int (input_filter_size self)) ;;
  let input_shape := wrap64 (wrap64 (input_shape + k) - 1) in
  inr (output_shape, input_shape).

(** Lines 68-86: the two time lengths computed from the bottleneck [x]. *)
Definition lengths_from (self : UnetAudioSeparator) (x : Z) : exn + (Z * Z) :=
  let output_shape := x in
  let input_shape := x in
  k <-? int64_of_int (filter_size self) ;;
  let input_shape := wrap64 (wrap64 (input_shape + k) - 1) in
  '(output_shape, input_shape) <-?
    for_rangeE (shape_step self) (Z.to_nat (num_layers self)) 0
               (output_shape, input_shape) ;;
  k <-? int64_of_int (output_filter_size self) ;;
  let output_shape := wrap64 (wrap64 (output_shape - k) + 1) in
  inr (output_shape, input_shape).

Definition get_padding (self : UnetAudioSeparator) (sh : shape)
  : exn + (shape * shape) :=
  if context self then
    t <-? index sh 1 ;;
    x <-? bottleneck self t ;;
    if 2 <=? x then
      '(output_shape, input_shape) <-? lengths_from self x ;;
      b <-? index sh 0 ;;
      inr ([b; input_shape; num_channels self],
           [b; output_shape; num_channels self])
    else inl AssertionError
  else
    b <-? index sh 0 ;;
    t <-? index sh 1 ;;
    inr ([b; t; num_channels self], [b; t; num_channels self]).

(** *** The same arithmetic without rounding and wrap-around *)

(** Lines 60-61 on rationals. *)
Definition exact_rem_step (self : UnetAudioSeparator) (_ : Z) (rem : Q) : Q :=
  let rem := (rem + inject_Z (merge_filter_size self) - 1)%Q in
  ((rem + 1) / 2)%Q.

(** Lines 53-61 on rationals. *)
Definition exact_rem_final (self : UnetAudioSeparator) (t : Z) : Q :=
  let rem := inject_Z t in
  let rem := (rem - inject_Z (output_filter_size self) + 1)%Q in
  for_range (exact_rem_step self) (Z.to_nat (num_layers self)) 0 rem.

(** Line 64 on rationals. *)
Definition exact_bottleneck (self : UnetAudioSeparator) (t : Z) : Z :=
  Qceiling (exact_rem_final self t).

(** Lines 76-83 on unbounded integers. *)
Definition exact_shape_step (self : UnetAudioSeparator) (i : Z) (s : Z * Z) : Z * Z :=
  let '(output_shape, input_shape) := s in
  let output_shape := 2 * output_shape - 1 in
  let output_shape := output_shape - merge_filter_size self + 1 in
  let input_shape := 2 * input_shape - 1 in
  let input_shape :=
    if i <? num_layers self - 1
    then input_shape + filter_size self - 1
    else input_shape + input_filter_size self - 1 in
  (output_shape, input_shape).

(** Lines 68-86 on unbounded integers. *)
Definition exact_lengths_from (self : UnetAudioSeparator) (x : Z) : Z * Z :=
  let output_shape := x in
  let input_shape := x in
  let input_shape := input_shape + filter_size self - 1 in
  let '(output_shape, input_shape) :=
    for_range (exact_shape_step self) (Z.to_nat (num_layers self)) 0
              (output_shape, input_shape) in
  let output_shape := output_shape - output_filter_size self + 1 in
  (output_shape, input_shape).

(** The [input_shape] half of [exact_shape_step]. *)
Definition input_step (self : UnetAudioSeparator) (i : Z) (input_shape : Z) : Z :=
  snd (exact_shape_step self i (0, input_shape)).

(** The [output_shape] half of [exact_shape_step]. *)
Definition output_step (self : UnetAudioSeparator) (i : Z) (output_shape : Z) : Z :=
  fst (exact_shape_step self i (output_shape, 0)).

Definition exact_get_padding (self : UnetAudioSeparator) (sh : shape)
  : exn + (shape * shape) :=
  if context self then
    match index sh 1 with
    | inl e => inl e
    | inr t =>
        let x := exact_bottleneck self t in
        if 2 <=? x then
          let '(output_shape, input_shape) := exact_lengths_from self x in
          match index sh 0 with
          | inl e => inl e
          | inr b =>
              inr ([b; input_shape; num_channels self],
                   [b; output_shape; num_channels self])
          end
        else inl AssertionError
    end
  else
    match index sh 0 with
    | inl e => inl e
    | inr b =>
        match index sh 1 with
        | inl e => inl e
        | inr t =>
            inr ([b; t; num_channels self], [b; t; num_channels self])
        end
    end.

(** The configurations and requests on which neither the float nor the
    [int64] arithmetic of [get_padding] rounds or wraps: kernel widths of
    absolute value [B] at most, with room for [num_layers + 3] more bits
    in the 53 of a float. *)
Definition exact_range (self : UnetAudioSeparator) (B : Z) : Prop :=
  0 <= num_layers self /\ 1 <= B /\
  Z.abs (filter_size self) <= B /\ Z.abs (merge_filter_size self) <= B /\
  Z.abs (input_filter_size self) <= B /\ Z.abs (output_filter_size self) <= B /\
  B * 2 ^ (num_layers self + 3) <= 2 ^ 53.

(** Two integers that have the same [int64]. *)
Definition same_int64 (a b : Z) : Prop := (2 ^ 64 | a - b).


(** *** The backward algorithm as the specification words it *)

(** The ceiling is taken at every decoder stage, on integers. *)
Definition spec_rem_step (self : UnetAudioSeparator) (_ : Z) (rem : Z) : Z :=
  let rem := rem + merge_filter_size self - 1 in
  Qceiling ((inject_Z rem + 1) / 2).

Definition spec_bottleneck (self : UnetAudioSeparator) (t : Z) : Z :=
  let rem := t - output_filter_size self + 1 in
  let rem := for_range (spec_rem_step self) (Z.to_nat (num_layers self)) 0 rem in
  Qceiling (inject_Z rem).

(** *** The forward length arithmetic as the specification words it *)


(** Decoder stage: upsampling and a valid convolution. *)
Definition spec_decoder_step (self : UnetAudioSeparator) (_ : Z) (l : Z) : Z :=
  let l := 2 * l - 1 in
  l - merge_filter_size self + 1.


(** ** [get_output], on static shapes *)

(** The static shape [[batch_size, time_steps, channels]] of a 3-D tensor,
    as [get_shape().as_list()] returns it. *)
Record tensor : Type := {
  batch_size : Z;
  time_steps : Z;
  channels : Z
}.

(** Variable scopes: ["down_conv_" + str(i)] and ["up_conv_" + str(i)]. *)
Inductive var_scope : Type :=
| down_conv_ (i : Z)
| up_conv_ (i : Z).

(** What the assembly registers in the graph. *)
Inductive event : Type :=
| get_variable (scope : var_scope) (w_shape : list Z)
| add_thomson_constraint (scope : var_scope) (n_filt : Z) (model power : string).

(** Graph assembly: the events registered so far, and an exception or a
    value. *)
Definition M (A : Type) : Type := list event * (exn + A).

Definition ret {A : Type} (a : A) : M A := ([], inr a).
Definition raise {A : Type} (e : exn) : M A := ([], inl e).
Definition emit (e : event) : M unit := ([e], inr tt).

Definition bind {A B : Type} (m : M A) (f : A -> M B) : M B :=
  match m with
  | (l, inl e) => (l, inl e)
  | (l, inr a) => let '(l', r) := f a in (l ++ l', r)
  end.

Notation "x <- m ;; k" := (bind m (fun x => k))
  (at level 61, m at next level, right associativity).
Notation "' p <- m ;; k" := (bind m (fun x => let 'p := x in k))
  (at level 61, p pattern, m at next level, right associativity).

Definition assert (b : bool) : M unit :=
  if b then ret tt else raise AssertionError.

(** [for i in range(n)] with a body that may raise. *)
Fixpoint for_rangeM {S : Type} (body : Z -> S -> M S) (n : nat) (i : Z) (s : S)
  : M S :=
  match n with
  | O => ret s
  | Datatypes.S n' => s' <- body i s ;; for_rangeM body n' (i + 1) s'
  end.

(** [l[j]] for a Python list, with negative indices counted from the end. *)
Definition py_index {A : Type} (l : list A) (j : Z) : M A :=
  let len := Z.of_nat (List.length l) in
  let j' := if j <? 0 then len + j else j in
  if j' <? 0 then raise IndexError
  else match nth_error l (Z.to_nat j') with
       | Some a => ret a
       | None => raise IndexError
       end.

(** [tf.nn.conv1d(x, W, stride=1, padding)] with [W] of shape
    [[k, in, n_filt]]: "out = in - filter + 1" without padding (shape
    inference refuses a negative length), the same length with it. *)
Definition conv1d (x : tensor) (k n_filt : Z) (pad : padding_mode) : M tensor :=
  match pad with
  | VALID =>
      if k <=? time_steps x
      then ret {| batch_size := batch_size x;
                  time_steps := time_steps x - k + 1;
                  channels := n_filt |}
      else raise ValueError
  | SAME =>
      ret {| batch_size := batch_size x;
             time_steps := time_steps x;
             channels := n_filt |}
  end.

(** [x[:,::2,:]]: "out = (in-1)/2 + 1". *)
Definition decimate (x : tensor) : tensor :=
  {| batch_size := batch_size x;
     time_steps := (time_steps x - 1) / 2 + 1;
     channels := channels x |}.

(** [tf.image.resize_bilinear] to [len] time steps. *)
Definition resize_bilinear (x : tensor) (len : Z) : tensor :=
  {| batch_size := batch_size x; time_steps := len; channels := channels x |}.

(** Modelled from the spec: [Utils.crop_and_concat] is not part of the
    sources at hand; it centre-crops the longer-time tensor to the shorter's
    length, then concatenates along channels. *)
Definition crop_and_concat (x1 x2 : tensor) : tensor :=
  {| batch_size := batch_size x1;
     time_steps := Z.min (time_steps x1) (time_steps x2);
     channels := channels x1 + channels x2 |}.

(** Modelled from the spec: [Utils.crop] is not part of the sources at
    hand; it centre-crops the time axis to the target's length. *)
Definition crop (x target : tensor) : tensor :=
  {| batch_size := batch_size x;
     time_steps := time_steps target;
     channels := channels x |}.

(** The output nonlinearity: [tf.tanh] or [Utils.AudioClip(x, training)]. *)
Inductive activation : Type :=
| tf_tanh
| AudioClip (training : bool).

(** The value [get_output] returns is the one its output-layer collaborator
    returns; it is identified with the call. *)
Inductive outputs : Type :=
| independent_outputs (featuremap : tensor) (names : list string)
    (n_channels filter_width : Z) (pad : padding_mode) (act : activation)
| difference_output (cropped_input featuremap : tensor) (names : list string)
    (n_channels filter_width : Z) (pad : padding_mode) (act : activation)
    (training : bool).

Section GetOutput.

(** The shape [Models.InterpolationLayer.learned_interpolation_layer]
    returns for an input shape, a padding mode and a level; that module
    is not part of the sources at hand. *)
Variable learned_interpolation_layer : tensor -> padding_mode -> Z -> tensor.

Variable self : UnetAudioSeparator.

(** Steps 1-3 of each of the three convolution blocks (lines 116-128,
    134-145 and 170-181): weights of shape [[k, in, n_filt]], the
    Thomson constraint when MHE is on, convolution and leaky ReLU (which
    keeps the shape). *)
Definition conv_layer (scope : var_scope) (k n_filt : Z) (current_layer : tensor)
  : M tensor :=
  let num_in_channels := channels current_layer in
  let w_shape := [k; num_in_channels; n_filt] in
  _ <- emit (get_variable scope w_shape) ;;
  _ <- (if mhe self
        then emit (add_thomson_constraint scope n_filt
                     (mhe_model self) (mhe_power self))
        else ret tt) ;;
  current_layer <- conv1d current_layer k n_filt (padding self) ;;
  ret current_layer.

(** Lines 112-130, on the pair [(enc_outputs, current_layer)]. *)
Definition down_block (i : Z) (s : list tensor * tensor)
  : M (list tensor * tensor) :=
  let '(enc_outputs, current_layer) := s in
  let n_filt := num_initial_filters self + num_initial_filters self * i in
  current_layer <- conv_layer (down_conv_ i) (filter_size self) n_filt
                              current_layer ;;
  let enc_outputs := enc_outputs ++ [current_layer] in
  ret (enc_outputs, decimate current_layer).

(** Lines 133-145. *)
Definition last_down_conv (current_layer : tensor) : M tensor :=
  let n_filt :=
    num_initial_filters self + num_initial_filters self * num_layers self in
  conv_layer (down_conv_ (num_layers self)) (filter_size self) n_filt
             current_layer.

(** Lines 152-161; the singleton axis that is added before the upsampling
    and squeezed after it is left out of the shape. *)
Definition upsample (i : Z) (current_layer : tensor) : tensor :=
  if (upsampling self =? "learned")%string then
    learned_interpolation_layer current_layer (padding self) i
  else if context self then
    resize_bilinear current_layer (time_steps current_layer * 2 - 1)
  else
    resize_bilinear current_layer (time_steps current_layer * 2).

(** Lines 150-181. *)
Definition up_block (enc_outputs : list tensor) (i : Z) (current_layer : tensor)
  : M tensor :=
  let current_layer := upsample i current_layer in
  enc <- py_index enc_outputs (- i - 1) ;;
  _ <- assert ((time_steps enc =? time_steps current_layer) || context self) ;;
  let current_layer := crop_and_concat enc current_layer in
  let n_filt :=
    num_initial_filters self
    + num_initial_filters self * (num_layers self - i - 1) in
  conv_layer (up_conv_ i) (merge_filter_size self) n_filt current_layer.

(** Lines 108-184: everything before the output layer. *)
Definition assemble (input : tensor) : M tensor :=
  let n := Z.to_nat (num_layers self) in
  '(enc_outputs, current_layer) <- for_rangeM down_block n 0 ([], input) ;;
  current_layer <- last_down_conv current_layer ;;
  current_layer <- for_rangeM (up_block enc_outputs) n 0 current_layer ;;
  ret (crop_and_concat input current_layer).

(** Lines 186-202. *)
Definition output_layer (input : tensor) (training : bool)
  (current_layer : tensor) : M outputs :=
  out_activation <-
    (if (output_activation self =? "tanh")%string then ret tf_tanh
     else if (output_activation self =? "linear")%string
          then ret (AudioClip training)
          else raise NotImplementedError) ;;
  if (output_type self =? "direct")%string then
    ret (independent_outputs current_layer (source_names self)
           (num_channels self) (output_filter_size self) (padding self)
           out_activation)
  else if (output_type self =? "difference")%string then
    let cropped_input := crop input current_layer in
    ret (difference_output cropped_input current_layer (source_names self)
           (num_channels self) (output_filter_size self) (padding self)
           out_activation training)
  else raise NotImplementedError.

Definition get_output (input : tensor) (training : bool) : M outputs :=
  current_layer <- assemble input ;;
  output_layer input training current_layer.

End GetOutput.

(** *** Observations on a run of [get_output] *)

(** What the log may hold for a given object: a weight tensor
    [[kernel, in, n_filt]] per convolution, with the filter counts
    [num_initial_filters * (i + 1)] on the way down (the bottleneck is
    layer [num_layers]) and [num_initial_filters * (num_layers - i)] on the
    way up, and Thomson constraints on the same filter counts. *)
Definition well_declared (self : UnetAudioSeparator) (e : event) : Prop :=
  match e with
  | get_variable (down_conv_ i) w_shape =>
      (0 <= i < num_layers self \/ i = num_layers self) /\
      exists c_in,
        w_shape = [filter_size self; c_in; num_initial_filters self * (i + 1)]
  | get_variable (up_conv_ i) w_shape =>
      0 <= i < num_layers self /\
      exists c_in,
        w_shape = [merge_filter_size self; c_in;
                   num_initial_filters self * (num_layers self - i)]
  | add_thomson_constraint (down_conv_ i) n_filt _ _ =>
      n_filt = num_initial_filters self * (i + 1)
  | add_thomson_constraint (up_conv_ i) n_filt _ _ =>
      n_filt = num_initial_filters self * (num_layers self - i)
  end.

(** The run did not stop on a failed [assert]. *)
Definition no_assertion_error {A : Type} (m : M A) : Prop :=
  snd m <> inl AssertionError.

(** The run did not stop on a list index out of range. *)
Definition no_index_error {A : Type} (m : M A) : Prop :=
  snd m <> inl IndexError.

(** The time lengths [2^n * k, ..., 4 * k, 2 * k]. *)
Fixpoint halving (n : nat) (k : Z) : list Z :=
  match n with
  | O => []
  | Datatypes.S n' => 2 ^ Z.of_nat n * k :: halving n' k
  end.

(** The indices [range(n)] visits when it is entered at [i]. *)
Fixpoint zrange (n : nat) (i : Z) : list Z :=
  match n with
  | O => []
  | Datatypes.S n' => i :: zrange n' (i + 1)
  end.

(** The scopes in which a run declared a weight tensor, in order. *)
Definition declared_scopes (log : list event) : list var_scope :=
  flat_map (fun e => match e with
                     | get_variable scope _ => [scope]
                     | add_thomson_constraint _ _ _ _ => []
                     end) log.

(** The Thomson constraints a run registered, in order. *)
Definition registered_constraints (log : list event) : list event :=
  flat_map (fun e => match e with
                     | get_variable _ _ => []
                     | add_thomson_constraint _ _ _ _ => [e]
                     end) log.

(** One Thomson constraint per declared weight tensor [[k, in, n_filt]],
    on its filter count and with the object's MHE settings. *)
Definition constraints_of_weights (self : UnetAudioSeparator) (log : list event)
  : list event :=
  flat_map (fun e => match e with
                     | get_variable scope w_shape =>
                         [add_thomson_constraint scope (nth 2 w_shape 0)
                            (mhe_model self) (mhe_power self)]
                     | add_thomson_constraint _ _ _ _ => []
                     end) log.

(** ** Sample configuration *)

Definition sample_config (ctx : bool) (mfs ofs : Z) : model_config := {|
  cfg_num_layers := 2;
  cfg_num_initial_filters := 4;
  cfg_filter_size := 3;
  cfg_merge_filter_size := mfs;
  cfg_input_filter_size := 3;
  cfg_output_filter_size := ofs;
  cfg_upsampling := "linear";
  cfg_output_type := "direct";
  cfg_context := ctx;
  cfg_source_names := ["vocals"; "accompaniment"]%string;
  cfg_mono_downmix := false;
  cfg_output_activation := "tanh";
  cfg_mhe := false;
  cfg_mhe_model := "";
  cfg_mhe_power := ""
|}.

(** The published Wave-U-Net setting: 12 layers, kernels 15/5/15/1. *)
Definition wave_u_net_config : model_config := {|
  cfg_num_layers := 12;
  cfg_num_initial_filters := 24;
  cfg_filter_size := 15;
  cfg_merge_filter_size := 5;
  cfg_input_filter_size := 15;
  cfg_output_filter_size := 1;
  cfg_upsampling := "learned";
  cfg_output_type := "difference";
  cfg_context := true;
  cfg_source_names := ["accompaniment"; "vocals"]%string;
  cfg_mono_downmix := true;
  cfg_output_activation := "tanh";
  cfg_mhe := true;
  cfg_mhe_model := "mhe";
  cfg_mhe_power := "0"
|}.

(** A configuration with other output settings. *)
Definition with_output (c : model_config) (act type : string) : model_config := {|
  cfg_num_layers := cfg_num_layers c;
  cfg_num_initial_filters := cfg_num_initial_filters c;
  cfg_filter_size := cfg_filter_size c;
  cfg_merge_filter_size := cfg_merge_filter_size c;
  cfg_input_filter_size := cfg_input_filter_size c;
  cfg_output_filter_size := cfg_output_filter_size c;
  cfg_upsampling := cfg_upsampling c;
  cfg_output_type := type;
  cfg_context := cfg_context c;
  cfg_source_names := cfg_source_names c;
  cfg_mono_downmix := cfg_mono_downmix c;
  cfg_output_activation := act;
  cfg_mhe := cfg_mhe c;
  cfg_mhe_model := cfg_mhe_model c;
  cfg_mhe_power := cfg_mhe_power c
|}.

(** What the assembly of the sample network logs on 23 input samples, and
    the tensor it hands to the output layer. *)
Definition sample_log : list event :=
  [get_variable (down_conv_ 0) [3; 2; 4];
   get_variable (down_conv_ 1) [3; 4; 8];
   get_variable (down_conv_ 2) [3; 8; 12];
   get_variable (up_conv_ 0) [3; 20; 8];
   get_variable (up_conv_ 1) [3; 12; 4]].

Definition sample_merged : tensor :=
  {| batch_size := 1; time_steps := 3; channels := 6 |}.

(** The interpolation layer as the original Wave-U-Net has it: [2L - 1]
    time steps without padding, [2L] with it. *)
Definition sample_interpolation (x : tensor) (pad : padding_mode) (_ : Z) : tensor :=
  resize_bilinear x
    (match pad with VALID => 2 * time_steps x - 1 | SAME => 2 * time_steps x end).

Definition sample_input (t : Z) : tensor :=
  {| batch_size := 1; time_steps := t; channels := 2 |}.

(** Fifty-five layers with kernels of width 1. *)
Definition deep_config : model_config := {|
  cfg_num_layers := 55;
  cfg_num_initial_filters := 4;
  cfg_filter_size := 1;
  cfg_merge_filter_size := 1;
  cfg_input_filter_size := 1;
  cfg_output_filter_size := 1;
  cfg_upsampling := "linear";
  cfg_output_type := "direct";
  cfg_context := true;
  cfg_source_names := ["vocals"; "accompaniment"]%string;
  cfg_mono_downmix := false;
  cfg_output_activation := "tanh";
  cfg_mhe := false;
  cfg_mhe_model := "";
  cfg_mhe_power := ""
|}.


(** Sixty-four layers with a decoder kernel of width 3: here the [int64]
    lengths of [get_padding] wrap around. *)
Definition wide_config : model_config := {|
  cfg_num_layers := 64;
  cfg_num_initial_filters := 1;
  cfg_filter_size := 1;
  cfg_merge_filter_size := 3;
  cfg_input_filter_size := 1;
  cfg_output_filter_size := 1;
  cfg_upsampling := "linear";
  cfg_output_type := "direct";
  cfg_context := true;
  cfg_source_names := ["vocals"]%string;
  cfg_mono_downmix := false;
  cfg_output_activation := "tanh";
  cfg_mhe := false;
  cfg_mhe_model := "";
  cfg_mhe_power := ""
|}.
(** * Properties *)

(** ** Worked examples *)

Example get_padding_wave_u_net :
  get_padding (init wave_u_net_config) [16; 16384; 1]
  = inr ([16; 147443; 1], [16; 16389; 1]).
Proof. vm_compute. reflexivity. Qed.

Example get_padding_sample :
  get_padding (init (sample_config true 3 1)) [1; 1; 2] = inr ([1; 23; 2], [1; 3; 2]).
Proof. vm_compute. reflexivity. Qed.

Example get_output_sample :
  get_output sample_interpolation (init (sample_config true 3 1)) (sample_input 23) false
  = ([get_variable (down_conv_ 0) [3; 2; 4];
      get_variable (down_conv_ 1) [3; 4; 8];
      get_variable (down_conv_ 2) [3; 8; 12];
      get_variable (up_conv_ 0) [3; 20; 8];
      get_variable (up_conv_ 1) [3; 12; 4]],
     inr (independent_outputs
            {| batch_size := 1; time_steps := 3; channels := 6 |}
            ["vocals"; "accompaniment"]%string 2 1 VALID tf_tanh)).
Proof. vm_compute. reflexivity. Qed.

(** On the 127 input samples [get_padding] asks for when 100 output samples
    are requested with an output kernel of width 3, the assembly hands 101
    time steps to the output layer, which leaves 99 after that kernel. *)
Example assemble_output_kernel_3 :
  snd (assemble sample_interpolation (init (sample_config true 5 3))
         (sample_input 127))
  = inr {| batch_size := 1; time_steps := 101; channels := 6 |}.
Proof. vm_compute. reflexivity. Qed.

(** ** Loops *)

Lemma for_range_succ {S : Type} (body : Z -> S -> S) (n : nat) (i : Z) (s : S) :
  for_range body (Datatypes.S n) i s = body (i + Z.of_nat n) (for_range body n i s).
Proof.
  revert i s. induction n as [|n IH]; intros i s.
  - simpl. now rewrite Z.add_0_r.
  - change (for_range body (Datatypes.S (Datatypes.S n)) i s)
      with (for_range body (Datatypes.S n) (i + 1) (body i s)).
    rewrite IH. simpl for_range.
    replace (i + 1 + Z.of_nat n) with (i + Z.of_nat (Datatypes.S n)) by lia.
    reflexivity.
Qed.

(** ** Ceilings *)

Lemma inject_Z_minus (x y : Z) : inject_Z (x - y) = (inject_Z x - inject_Z y)%Q.
Proof.
  unfold Z.sub, Qminus. now rewrite inject_Z_plus, inject_Z_opp.
Qed.

(** Brings a goal with integers cast to rationals into the fragment [lra]
    decides: casts pushed to the leaves, division by two as a product. *)
Ltac q_normalise :=
  unfold Qdiv in *; change (/ 2)%Q with (1 # 2)%Q in *;
  repeat first [ rewrite inject_Z_plus in * | rewrite inject_Z_minus in *
               | rewrite inject_Z_mult in * | rewrite inject_Z_opp in * ];
  change (inject_Z 1) with 1%Q in *; change (inject_Z 2) with 2%Q in *.

Lemma Qceiling_unique (x : Q) (z : Z) :
  (inject_Z z - 1 < x)%Q -> (x <= inject_Z z)%Q -> Qceiling x = z.
Proof.
  intros Hlo Hhi.
  pose proof (Qle_ceiling x) as Hc.
  pose proof (Qceiling_lt x) as Hl.
  assert (H1 : Qceiling x - 1 < z) by (rewrite Zlt_Qlt; q_normalise; lra).
  assert (H2 : z - 1 < Qceiling x) by (rewrite Zlt_Qlt; q_normalise; lra).
  lia.
Qed.

(** Halving after an integer shift commutes with rounding up. *)
Lemma Qceiling_half_shift (q : Q) (m : Z) :
  Qceiling ((q + inject_Z m) / 2) = Qceiling ((inject_Z (Qceiling q + m)) / 2).
Proof.
  set (k := Qceiling (inject_Z (Qceiling q + m) / 2)).
  pose proof (Qle_ceiling q) as Hq.
  pose proof (Qceiling_lt q) as Hq'.
  pose proof (Qle_ceiling (inject_Z (Qceiling q + m) / 2)) as Hk.
  pose proof (Qceiling_lt (inject_Z (Qceiling q + m) / 2)) as Hk'.
  fold k in Hk, Hk'.
  assert (Hint : 2 * k - 2 < Qceiling q + m)
    by (rewrite Zlt_Qlt; q_normalise; lra).
  assert (Hint' : 2 * k - 2 <= Qceiling q - 1 + m) by lia.
  rewrite Zle_Qle in Hint'.
  apply Qceiling_unique; q_normalise; lra.
Qed.

(** ** The backward pass of [exact_get_padding] *)

Lemma rem_step_ceiling (self : UnetAudioSeparator) (i j : Z) (q : Q) :
  Qceiling (exact_rem_step self i q) = spec_rem_step self j (Qceiling q).
Proof.
  unfold exact_rem_step, spec_rem_step.
  transitivity (Qceiling ((q + inject_Z (merge_filter_size self)) / 2)).
  - apply Qceiling_comp. q_normalise. ring.
  - rewrite Qceiling_half_shift. apply Qceiling_comp. q_normalise. ring.
Qed.

Lemma rem_loop_ceiling (self : UnetAudioSeparator) (n : nat) :
  forall (i j : Z) (q : Q),
    Qceiling (for_range (exact_rem_step self) n i q)
    = for_range (spec_rem_step self) n j (Qceiling q).
Proof.
  induction n as [|n IH]; intros i j q; simpl.
  - reflexivity.
  - rewrite (IH (i + 1) (j + 1)). f_equal. apply rem_step_ceiling.
Qed.

Lemma rem_step_mono (self : UnetAudioSeparator) (i : Z) (p q : Q) :
  (p <= q)%Q -> (exact_rem_step self i p <= exact_rem_step self i q)%Q.
Proof.
  intros H. unfold exact_rem_step. q_normalise. lra.
Qed.

Lemma rem_loop_mono (self : UnetAudioSeparator) (n : nat) :
  forall (i : Z) (p q : Q),
    (p <= q)%Q ->
    (for_range (exact_rem_step self) n i p <= for_range (exact_rem_step self) n i q)%Q.
Proof.
  induction n as [|n IH]; intros i p q H; simpl.
  - exact H.
  - apply IH. now apply rem_step_mono.
Qed.

Lemma exact_bottleneck_mono (self : UnetAudioSeparator) (t t' : Z) :
  t <= t' -> exact_bottleneck self t <= exact_bottleneck self t'.
Proof.
  intros H. unfold exact_bottleneck, exact_rem_final.
  apply Qceiling_resp_le, rem_loop_mono.
  rewrite Zle_Qle in H. lra.
Qed.

(** The exact [rem] is an integer over [2 ^ num_layers] at every configuration:
    it stays a dyadic rational. *)
Lemma rem_dyadic (self : UnetAudioSeparator) (t : Z) :
  exists k : Z,
    (exact_rem_final self t * inject_Z (2 ^ Z.of_nat (Z.to_nat (num_layers self)))
     == inject_Z k)%Q.
Proof.
  unfold exact_rem_final.
  generalize (Z.to_nat (num_layers self)) as n.
  assert (H : forall n i q, (exists k0, q == inject_Z k0)%Q ->
            exists k, (for_range (exact_rem_step self) n i q * inject_Z (2 ^ Z.of_nat n)
                       == inject_Z k)%Q).
  { induction n as [|n IH]; intros i q [k0 Hk0].
    - exists k0. simpl. rewrite Hk0. ring.
    - rewrite for_range_succ.
      destruct (IH i q (ex_intro _ k0 Hk0)) as [k Hk].
      exists (k + (2 ^ Z.of_nat n) * merge_filter_size self).
      rewrite Nat2Z.inj_succ, Z.pow_succ_r by lia.
      set (r := for_range (exact_rem_step self) n i q) in *.
      unfold exact_rem_step. q_normalise.
      rewrite <- Hk. ring. }
  intros n. apply H.
  exists (t - output_filter_size self + 1). q_normalise. ring.
Qed.

(** ** The forward pass of [exact_get_padding] *)

Lemma shape_loop_split (self : UnetAudioSeparator) (n : nat) :
  forall (i o v : Z),
    for_range (exact_shape_step self) n i (o, v)
    = (for_range (output_step self) n i o, for_range (input_step self) n i v).
Proof.
  induction n as [|n IH]; intros i o v; simpl.
  - reflexivity.
  - rewrite <- IH. reflexivity.
Qed.

Lemma exact_lengths_from_split (self : UnetAudioSeparator) (x : Z) :
  exact_lengths_from self x
  = (for_range (output_step self) (Z.to_nat (num_layers self)) 0 x
       - output_filter_size self + 1,
     for_range (input_step self) (Z.to_nat (num_layers self)) 0
       (x + filter_size self - 1)).
Proof.
  unfold exact_lengths_from. now rewrite shape_loop_split.
Qed.


Lemma output_step_spec (self : UnetAudioSeparator) (i j : Z) (l : Z) :
  output_step self i l = spec_decoder_step self j l.
Proof. reflexivity. Qed.

Lemma output_loop_spec (self : UnetAudioSeparator) (n : nat) :
  forall (i j l : Z),
    for_range (output_step self) n i l = for_range (spec_decoder_step self) n j l.
Proof.
  induction n as [|n IH]; intros i j l; simpl.
  - reflexivity.
  - now rewrite (IH (i + 1) (j + 1)).
Qed.

(** Going [n] stages up from a length that bounds [rem] after [n] stages
    down gives a length that bounds the [rem] started from. *)
Lemma output_loop_bounds_rem (self : UnetAudioSeparator) (n : nat) :
  forall (i j : Z) (q : Q) (z : Z),
    (for_range (exact_rem_step self) n i q <= inject_Z z)%Q ->
    (q <= inject_Z (for_range (output_step self) n j z))%Q.
Proof.
  induction n as [|n IH]; intros i j q z H.
  - exact H.
  - rewrite for_range_succ.
    simpl in H. apply (IH _ j) in H.
    set (w := for_range (output_step self) n j z) in *.
    unfold output_step, exact_shape_step; cbn [fst snd].
    unfold exact_rem_step in H. q_normalise. lra.
Qed.



(** ** [exact_get_padding] as a whole *)

Lemma exact_get_padding_no_context (self : UnetAudioSeparator) (b t c : Z) :
  context self = false ->
  exact_get_padding self [b; t; c]
  = inr ([b; t; num_channels self], [b; t; num_channels self]).
Proof.
  intros Hc. unfold exact_get_padding. now rewrite Hc.
Qed.

(** The time lengths [exact_get_padding] returns for a bottleneck of length [x]. *)
Lemma exact_get_padding_context (self : UnetAudioSeparator) (b t c : Z) :
  context self = true ->
  exact_get_padding self [b; t; c]
  = if 2 <=? exact_bottleneck self t
    then inr ([b; snd (exact_lengths_from self (exact_bottleneck self t)); num_channels self],
              [b; fst (exact_lengths_from self (exact_bottleneck self t)); num_channels self])
    else inl AssertionError.
Proof.
  intros Hc. unfold exact_get_padding. rewrite Hc. cbv [index nth_error].
  destruct (2 <=? exact_bottleneck self t); [|reflexivity].
  now destruct (exact_lengths_from self (exact_bottleneck self t)).
Qed.

Lemma exact_get_padding_context_inv (self : UnetAudioSeparator) (sh i o : shape) :
  context self = true ->
  exact_get_padding self sh = inr (i, o) ->
  exists b t,
    index sh 0 = inr b /\ index sh 1 = inr t /\ 2 <= exact_bottleneck self t /\
    i = [b; snd (exact_lengths_from self (exact_bottleneck self t)); num_channels self] /\
    o = [b; fst (exact_lengths_from self (exact_bottleneck self t)); num_channels self].
Proof.
  intros Hc. unfold exact_get_padding. rewrite Hc.
  destruct (index sh 1) as [e|t]; [discriminate|].
  destruct (Z.leb_spec 2 (exact_bottleneck self t)) as [Hx|Hx]; [|discriminate].
  destruct (exact_lengths_from self (exact_bottleneck self t)) as [lo li] eqn:El.
  destruct (index sh 0) as [e|b]; [discriminate|].
  intros [= <- <-]. exists b, t. rewrite El. repeat split; auto.
Qed.

(** The achievable output length misses the request by at most twice the
    output kernel's overhang. *)
Lemma exact_output_length_lower_bound (self : UnetAudioSeparator) (sh i o : shape) (t : Z) :
  context self = true ->
  index sh 1 = inr t ->
  exact_get_padding self sh = inr (i, o) ->
  t - 2 * (output_filter_size self - 1) <= nth 1 o 0.
Proof.
  intros Hc Ht Hg.
  destruct (exact_get_padding_context_inv _ _ _ _ Hc Hg) as (b & t' & _ & Ht' & _ & _ & ->).
  rewrite Ht in Ht'. injection Ht' as <-.
  rewrite exact_lengths_from_split. cbn [fst nth].
  pose proof (Qle_ceiling (exact_rem_final self t)) as Hx.
  fold (exact_bottleneck self t) in Hx. unfold exact_rem_final in Hx.
  apply (output_loop_bounds_rem _ _ _ 0) in Hx.
  set (w := for_range (output_step self) _ 0 _) in *.
  assert (H : t - output_filter_size self + 1 <= w)
    by (rewrite Zle_Qle; q_normalise; lra).
  lia.
Qed.

(** With the usual output kernel of width 1 the output covers the request. *)
Lemma exact_output_covers_request (self : UnetAudioSeparator) (sh i o : shape) (t : Z) :
  context self = true ->
  output_filter_size self = 1 ->
  index sh 1 = inr t ->
  exact_get_padding self sh = inr (i, o) ->
  t <= nth 1 o 0.
Proof.
  intros Hc Ho Ht Hg.
  pose proof (exact_output_length_lower_bound _ _ _ _ _ Hc Ht Hg). lia.
Qed.


Lemma exact_bottleneck_backward_algorithm (self : UnetAudioSeparator) (t : Z) :
  exact_bottleneck self t = spec_bottleneck self t.
Proof.
  unfold exact_bottleneck, exact_rem_final, spec_bottleneck.
  rewrite (rem_loop_ceiling self _ 0 0), Qceiling_Z. f_equal.
  transitivity (Qceiling (inject_Z (t - output_filter_size self + 1))).
  - apply Qceiling_comp. q_normalise. ring.
  - apply Qceiling_Z.
Qed.



Lemma exact_get_padding_no_context_inv (self : UnetAudioSeparator) (sh i o : shape) :
  context self = false ->
  exact_get_padding self sh = inr (i, o) ->
  exists b t,
    index sh 0 = inr b /\ index sh 1 = inr t /\
    i = [b; t; num_channels self] /\ o = [b; t; num_channels self].
Proof.
  intros Hc. unfold exact_get_padding. rewrite Hc.
  destruct (index sh 0) as [e|b]; [discriminate|].
  destruct (index sh 1) as [e|t]; [discriminate|].
  intros [= <- <-]. exists b, t. repeat split.
Qed.

(** Both loops of the forward pass are affine in the exact_bottleneck length,
    with slope [2 ^ n]. *)
Lemma output_loop_affine (self : UnetAudioSeparator) (n : nat) :
  forall (i x d : Z),
    for_range (output_step self) n i (x + d)
    = for_range (output_step self) n i x + 2 ^ Z.of_nat n * d.
Proof.
  induction n as [|n IH]; intros i x d.
  - cbn [for_range]. change (2 ^ Z.of_nat 0) with 1. lia.
  - cbn [for_range].
    replace (output_step self i (x + d)) with (output_step self i x + 2 * d)
      by (unfold output_step, exact_shape_step; cbn [fst snd]; lia).
    rewrite IH, Nat2Z.inj_succ, Z.pow_succ_r by lia. lia.
Qed.

Lemma input_loop_affine (self : UnetAudioSeparator) (n : nat) :
  forall (i x d : Z),
    for_range (input_step self) n i (x + d)
    = for_range (input_step self) n i x + 2 ^ Z.of_nat n * d.
Proof.
  induction n as [|n IH]; intros i x d.
  - cbn [for_range]. change (2 ^ Z.of_nat 0) with 1. lia.
  - cbn [for_range].
    replace (input_step self i (x + d)) with (input_step self i x + 2 * d)
      by (unfold input_step, exact_shape_step; cbn [fst snd];
          destruct (i <? num_layers self - 1); lia).
    rewrite IH, Nat2Z.inj_succ, Z.pow_succ_r by lia. lia.
Qed.

(** The two lengths returned for two exact_bottleneck lengths differ by the same
    multiple of [2 ^ num_layers]. *)
Lemma exact_lengths_from_shift (self : UnetAudioSeparator) (x x' : Z) :
  fst (exact_lengths_from self x')
  = fst (exact_lengths_from self x) + 2 ^ Z.of_nat (Z.to_nat (num_layers self)) * (x' - x)
  /\ snd (exact_lengths_from self x')
     = snd (exact_lengths_from self x)
       + 2 ^ Z.of_nat (Z.to_nat (num_layers self)) * (x' - x).
Proof.
  rewrite !exact_lengths_from_split. cbn [fst snd].
  replace x' with (x + (x' - x)) at 1 by lia.
  replace (x' + filter_size self - 1)
    with (x + filter_size self - 1 + (x' - x)) by lia.
  rewrite output_loop_affine, input_loop_affine. lia.
Qed.

(** With kernels of width 1 at least, the input side stays above the output
    side at every stage. *)
Lemma shape_loop_dominates (self : UnetAudioSeparator) (n : nat) :
  1 <= filter_size self -> 1 <= input_filter_size self ->
  1 <= merge_filter_size self ->
  forall (i o v : Z),
    o <= v ->
    for_range (output_step self) n i o <= for_range (input_step self) n i v.
Proof.
  intros Hf Hi Hm. induction n as [|n IH]; intros i o v H.
  - exact H.
  - cbn [for_range]. apply IH.
    unfold output_step, input_step, exact_shape_step; cbn [fst snd].
    destruct (i <? num_layers self - 1); lia.
Qed.

(** A length strictly below [rem] after [n] stages down stays strictly
    below the [rem] started from after [n] stages up. *)
Lemma output_loop_below_rem (self : UnetAudioSeparator) (n : nat) :
  forall (i j : Z) (q : Q) (z : Z),
    (inject_Z z < for_range (exact_rem_step self) n i q)%Q ->
    (inject_Z (for_range (output_step self) n j z) < q)%Q.
Proof.
  induction n as [|n IH]; intros i j q z H.
  - exact H.
  - rewrite for_range_succ.
    simpl in H. apply (IH _ j) in H.
    set (w := for_range (output_step self) n j z) in *.
    unfold output_step, exact_shape_step; cbn [fst snd].
    unfold exact_rem_step in H. q_normalise. lra.
Qed.

(** Going up undoes going down, exactly. *)
Lemma rem_loop_undoes_output (self : UnetAudioSeparator) (n : nat) :
  forall (i j : Z) (z : Z),
    (for_range (exact_rem_step self) n i
       (inject_Z (for_range (output_step self) n j z)) == inject_Z z)%Q.
Proof.
  induction n as [|n IH]; intros i j z.
  - reflexivity.
  - rewrite (for_range_succ (output_step self)).
    cbn [for_range].
    set (w := for_range (output_step self) n j z).
    assert (E : (exact_rem_step self i (inject_Z (output_step self (j + Z.of_nat n) w))
                 == inject_Z w)%Q).
    { unfold exact_rem_step, output_step, exact_shape_step; cbn [fst snd].
      q_normalise. field. }
    transitivity (for_range (exact_rem_step self) n (i + 1) (inject_Z w)).
    + apply Qle_antisym; apply rem_loop_mono; rewrite E; apply Qle_refl.
    + apply IH.
Qed.


Lemma exact_feasible_upward_closed (self : UnetAudioSeparator)
    (sh sh' i o : shape) (t t' b' : Z) :
  context self = true ->
  index sh 1 = inr t ->
  index sh' 0 = inr b' ->
  index sh' 1 = inr t' ->
  t <= t' ->
  exact_get_padding self sh = inr (i, o) ->
  exists i' o', exact_get_padding self sh' = inr (i', o').
Proof.
  intros Hc Ht Hb' Ht' Hle Hg.
  destruct (exact_get_padding_context_inv _ _ _ _ Hc Hg) as (b & t0 & _ & E & Hx & _).
  rewrite Ht in E. injection E as <-.
  pose proof (exact_bottleneck_mono self t t' Hle) as Hm.
  unfold exact_get_padding. rewrite Hc, Ht', Hb'.
  destruct (Z.leb_spec 2 (exact_bottleneck self t')); [|lia].
  destruct (exact_lengths_from self (exact_bottleneck self t')). eauto.
Qed.

Lemma exact_context_size_constant (self : UnetAudioSeparator)
    (sh sh' i o i' o' : shape) :
  exact_get_padding self sh = inr (i, o) ->
  exact_get_padding self sh' = inr (i', o') ->
  nth 1 i 0 - nth 1 o 0 = nth 1 i' 0 - nth 1 o' 0.
Proof.
  intros Hg Hg'. destruct (context self) eqn:Hc.
  - destruct (exact_get_padding_context_inv _ _ _ _ Hc Hg)
      as (b & t & _ & _ & _ & -> & ->).
    destruct (exact_get_padding_context_inv _ _ _ _ Hc Hg')
      as (b' & t' & _ & _ & _ & -> & ->).
    cbn [nth].
    destruct (exact_lengths_from_shift self (exact_bottleneck self t) (exact_bottleneck self t'))
      as [-> ->].
    lia.
  - destruct (exact_get_padding_no_context_inv _ _ _ _ Hc Hg)
      as (b & t & _ & _ & -> & ->).
    destruct (exact_get_padding_no_context_inv _ _ _ _ Hc Hg')
      as (b' & t' & _ & _ & -> & ->).
    cbn [nth]. lia.
Qed.

Lemma exact_input_covers_output (self : UnetAudioSeparator) (sh i o : shape) :
  1 <= filter_size self -> 1 <= input_filter_size self ->
  1 <= merge_filter_size self -> 1 <= output_filter_size self ->
  exact_get_padding self sh = inr (i, o) ->
  nth 1 o 0 <= nth 1 i 0.
Proof.
  intros Hf Hi Hm Ho Hg. destruct (context self) eqn:Hc.
  - destruct (exact_get_padding_context_inv _ _ _ _ Hc Hg)
      as (b & t & _ & _ & _ & -> & ->).
    rewrite exact_lengths_from_split. cbn [fst snd nth].
    pose proof (shape_loop_dominates self (Z.to_nat (num_layers self)) Hf Hi Hm 0
                  (exact_bottleneck self t) (exact_bottleneck self t + filter_size self - 1)).
    lia.
  - destruct (exact_get_padding_no_context_inv _ _ _ _ Hc Hg)
      as (b & t & _ & _ & -> & ->).
    cbn [nth]. lia.
Qed.

Lemma exact_output_length_window (self : UnetAudioSeparator) (sh i o : shape) (t : Z) :
  context self = true ->
  0 <= num_layers self ->
  index sh 1 = inr t ->
  exact_get_padding self sh = inr (i, o) ->
  t - 2 * (output_filter_size self - 1) <= nth 1 o 0
  < t - 2 * (output_filter_size self - 1) + 2 ^ num_layers self.
Proof.
  intros Hc Hn Ht Hg.
  destruct (exact_get_padding_context_inv _ _ _ _ Hc Hg) as (b & t' & _ & Ht' & _ & _ & ->).
  rewrite Ht in Ht'. injection Ht' as <-.
  rewrite exact_lengths_from_split. cbn [fst nth].
  pose proof (Qle_ceiling (exact_rem_final self t)) as Hhi.
  pose proof (Qceiling_lt (exact_rem_final self t)) as Hlo.
  fold (exact_bottleneck self t) in Hhi, Hlo. unfold exact_rem_final in Hhi, Hlo.
  apply (output_loop_bounds_rem _ _ _ 0) in Hhi.
  apply (output_loop_below_rem _ _ _ 0) in Hlo.
  replace (exact_bottleneck self t - 1) with (exact_bottleneck self t + (-1)) in Hlo by lia.
  rewrite output_loop_affine, Z2Nat.id in Hlo by lia.
  set (w := for_range (output_step self) _ 0 _) in *.
  assert (H1 : t - output_filter_size self + 1 <= w)
    by (rewrite Zle_Qle; q_normalise; lra).
  assert (H2 : w + 2 ^ num_layers self * -1 < t - output_filter_size self + 1)
    by (rewrite Zlt_Qlt; q_normalise; lra).
  lia.
Qed.

Lemma exact_returned_output_is_fixed_point (self : UnetAudioSeparator)
    (sh i o : shape) :
  (context self = true -> output_filter_size self = 1) ->
  exact_get_padding self sh = inr (i, o) ->
  exact_get_padding self o = inr (i, o).
Proof.
  intros Ho Hg. destruct (context self) eqn:Hc.
  - specialize (Ho eq_refl).
    destruct (exact_get_padding_context_inv _ _ _ _ Hc Hg)
      as (b & t & _ & _ & Hx & -> & ->).
    rewrite (exact_get_padding_context _ _ _ _ Hc).
    set (x := exact_bottleneck self t) in *.
    assert (E : exact_bottleneck self (fst (exact_lengths_from self x)) = x).
    { rewrite exact_lengths_from_split. cbn [fst].
      unfold exact_bottleneck, exact_rem_final. rewrite Ho.
      set (w := for_range (output_step self) _ 0 x).
      transitivity (Qceiling (inject_Z x)); [|apply Qceiling_Z].
      apply Qceiling_comp.
      transitivity (for_range (exact_rem_step self) (Z.to_nat (num_layers self)) 0
                      (inject_Z w)).
      - apply Qle_antisym; apply rem_loop_mono; q_normalise; lra.
      - apply rem_loop_undoes_output. }
    rewrite E. destruct (Z.leb_spec 2 x); [reflexivity|lia].
  - destruct (exact_get_padding_no_context_inv _ _ _ _ Hc Hg)
      as (b & t & _ & _ & -> & ->).
    apply (exact_get_padding_no_context _ _ _ _ Hc).
Qed.

(** ** Floats that do not round *)

Lemma round64_exact (m e : Z) :
  Z.abs m < 2 ^ 53 -> - 1074 <= e <= 0 -> round64 m e = Finite m e.
Proof.
  intros Hm He. unfold round64.
  destruct (Z.ltb_spec (Z.abs m) (2 ^ 53)) as [_|H]; [|lia].
  rewrite Z.max_l by lia. cbn [Z.ltb Z.compare].
  destruct (Z.leb_spec 0 e) as [H0|H0]; [|reflexivity].
  assert (e = 0) as -> by lia. rewrite Z.pow_0_r, Z.mul_1_r.
  destruct (Z.leb_spec (2 ^ 1024) (Z.abs m)) as [H|_]; [|reflexivity].
  exfalso. assert (2 ^ 53 < 2 ^ 1024) by (apply Z.pow_lt_mono_r; lia). lia.
Qed.

Lemma float_of_int_exact (z : Z) :
  Z.abs z < 2 ^ 53 -> float_of_int z = inr (Finite z 0).
Proof.
  intros H. unfold float_of_int. now rewrite round64_exact by lia.
Qed.

(** A float with exponent [e <= 0] plus or minus an integer. *)
Lemma fadd_int_exact (k e z : Z) :
  - 1074 <= e <= 0 ->
  Z.abs (k + z * 2 ^ (- e)) < 2 ^ 53 ->
  fadd (Finite k e) (Finite z 0) = Finite (k + z * 2 ^ (- e)) e.
Proof.
  intros He H. cbn [fadd]. rewrite Z.min_l by lia.
  rewrite Z.sub_diag, Z.pow_0_r, Z.mul_1_r, Z.sub_0_l.
  now apply round64_exact.
Qed.

Lemma fsub_int_exact (k e z : Z) :
  - 1074 <= e <= 0 ->
  Z.abs (k - z * 2 ^ (- e)) < 2 ^ 53 ->
  fsub (Finite k e) (Finite z 0) = Finite (k - z * 2 ^ (- e)) e.
Proof.
  intros He H. unfold fsub. cbn [fneg].
  rewrite fadd_int_exact by (try lia; now replace (k + - z * 2 ^ (- e))
                                        with (k - z * 2 ^ (- e)) by lia).
  f_equal. lia.
Qed.

Lemma fhalf_exact (k e : Z) :
  - 1073 <= e <= 0 -> Z.abs k < 2 ^ 53 ->
  fhalf (Finite k e) = Finite k (e - 1).
Proof.
  intros He H. cbn [fhalf]. apply round64_exact; lia.
Qed.

Lemma pow2_pos (a : Z) : 0 <= a -> 0 < 2 ^ a.
Proof. intros. apply Z.pow_pos_nonneg; lia. Qed.

(** One pass of the loop, on a numerator [k] over [2 ^ (- e)]. *)
Lemma rem_step_exact (self : UnetAudioSeparator) (B k e i : Z) :
  1 <= B -> Z.abs (merge_filter_size self) <= B ->
  - 1073 <= e <= 0 ->
  Z.abs k <= 3 * B * 2 ^ (- e) ->
  5 * B * 2 ^ (- e) < 2 ^ 53 ->
  rem_step self i (Finite k e)
  = inr (Finite (k + merge_filter_size self * 2 ^ (- e)) (e - 1))
  /\ Z.abs (k + merge_filter_size self * 2 ^ (- e)) <= 3 * B * 2 ^ (- (e - 1)).
Proof.
  intros HB Hm He Hk Hfit.
  set (P := 2 ^ (- e)) in *.
  assert (HP : 0 < P) by (apply pow2_pos; lia).
  assert (HP' : 2 ^ (- (e - 1)) = 2 * P).
  { replace (- (e - 1)) with (Z.succ (- e)) by lia.
    now rewrite Z.pow_succ_r by lia. }
  set (m := merge_filter_size self) in *.
  assert (HmP : Z.abs (m * P) <= B * P).
  { rewrite Z.abs_mul, (Z.abs_eq P) by lia. nia. }
  assert (HBP : P <= B * P) by nia.
  split.
  - unfold rem_step. fold m.
    rewrite float_of_int_exact by nia. cbn [ebind].
    rewrite fadd_int_exact by (fold P; lia). fold P.
    rewrite fsub_int_exact by (fold P; lia). fold P.
    rewrite fadd_int_exact by (fold P; lia). fold P.
    rewrite fhalf_exact by lia.
    do 2 f_equal. lia.
  - rewrite HP'. lia.
Qed.

Lemma pow2_le_inv (a b : Z) : 0 <= b -> 2 ^ a <= 2 ^ b -> a <= b.
Proof.
  intros Hb H. assert (H12 : 1 < 2) by lia.
  apply (proj2 (Z.pow_le_mono_r_iff 2 a b H12 Hb)). exact H.
Qed.

Lemma inject_Z_pow2_nonzero (a : Z) : 0 <= a -> ~ (inject_Z (2 ^ a) == 0)%Q.
Proof.
  intros Ha H. change 0%Q with (inject_Z 0) in H.
  apply (proj1 (inject_Z_injective _ _)) in H. pose proof (pow2_pos a Ha). lia.
Qed.

(** The whole loop, and the rational it stands for. *)
Lemma rem_loop_exact (self : UnetAudioSeparator) (B : Z) (n : nat) :
  1 <= B -> Z.abs (merge_filter_size self) <= B ->
  forall (e k i i' : Z) (q : Q),
    e <= 0 ->
    B * 2 ^ (- e + Z.of_nat n + 3) <= 2 ^ 53 ->
    Z.abs k <= 3 * B * 2 ^ (- e) ->
    (inject_Z k / inject_Z (2 ^ (- e)) == q)%Q ->
    exists k',
      for_rangeE (rem_step self) n i (Finite k e)
      = inr (Finite k' (e - Z.of_nat n))
      /\ Z.abs k' <= 3 * B * 2 ^ (- (e - Z.of_nat n))
      /\ (inject_Z k' / inject_Z (2 ^ (- (e - Z.of_nat n)))
          == for_range (exact_rem_step self) n i' q)%Q.
Proof.
  intros HB Hm. induction n as [|n IH]; intros e k i i' q He Hfit Hk Hq.
  - exists k. cbn [for_rangeE for_range]. rewrite Z.sub_0_r. auto.
  - assert (Hpow : 2 ^ (- e + Z.of_nat (Datatypes.S n) + 3) <= 2 ^ 53).
    { pose proof (pow2_pos (- e + Z.of_nat (Datatypes.S n) + 3)). nia. }
    apply pow2_le_inv in Hpow; [|lia].
    set (P := 2 ^ (- e)) in *.
    assert (HP : 0 < P) by (apply pow2_pos; lia).
    assert (H8 : 2 ^ (- e + Z.of_nat (Datatypes.S n) + 3) >= 8 * P).
    { replace (- e + Z.of_nat (Datatypes.S n) + 3)
        with (- e + (Z.of_nat (Datatypes.S n) + 3)) by lia.
      rewrite Z.pow_add_r by lia. fold P.
      assert (2 ^ 3 <= 2 ^ (Z.of_nat (Datatypes.S n) + 3))
        by (apply Z.pow_le_mono_r; lia).
      change (2 ^ 3) with 8 in *. nia. }
    destruct (rem_step_exact self B k e i HB Hm) as [Hstep Hk']; fold P;
      [lia | exact Hk | nia |].
    fold P in Hstep.
    assert (HP' : 2 ^ (- (e - 1)) = 2 * P).
    { replace (- (e - 1)) with (Z.succ (- e)) by lia.
      now rewrite Z.pow_succ_r by lia. }
    destruct (IH (e - 1) (k + merge_filter_size self * P) (i + 1) (i' + 1)
                (exact_rem_step self i' q)) as (k' & Hloop & Hb & Hv).
    + lia.
    + replace (- (e - 1) + Z.of_nat n + 3)
        with (- e + Z.of_nat (Datatypes.S n) + 3) by lia. exact Hfit.
    + exact Hk'.
    + rewrite HP'. unfold exact_rem_step. rewrite <- Hq. q_normalise.
      field. apply (inject_Z_pow2_nonzero (- e)). lia.
    + exists k'. cbn [for_rangeE for_range]. rewrite Hstep. cbn [ebind].
      replace (e - Z.of_nat (Datatypes.S n)) with (e - 1 - Z.of_nat n) by lia.
      auto.
Qed.

Lemma in_int64_spec (z : Z) : in_int64 z = true <-> - 2 ^ 63 <= z < 2 ^ 63.
Proof.
  unfold in_int64. rewrite andb_true_iff, Z.leb_le, Z.ltb_lt. tauto.
Qed.

(** The ceiling of a numerator [k] over [P]. *)
Lemma ceiling_quotient (k P C : Z) :
  0 < P -> Z.abs k <= C * P ->
  Qceiling (inject_Z k / inject_Z P) = - ((- k) / P)
  /\ Z.abs (- ((- k) / P)) <= C.
Proof.
  intros HP Hk. split.
  - unfold Qceiling. f_equal. rewrite Zdiv_Qdiv. apply Qfloor_comp.
    rewrite inject_Z_opp. field.
    intros H. change 0%Q with (inject_Z 0) in H.
    apply (proj1 (inject_Z_injective _ _)) in H. lia.
  - pose proof (Z.mul_div_le (- k) P HP).
    pose proof (Z.mul_succ_div_gt (- k) P HP).
    set (d := - k / P) in *. nia.
Qed.

Lemma ceil_to_int64_exact (k e C : Z) :
  e <= 0 -> Z.abs k <= C * 2 ^ (- e) -> C < 2 ^ 63 ->
  ceil_to_int64 (Finite k e) = Qceiling (inject_Z k / inject_Z (2 ^ (- e)))
  /\ Z.abs (Qceiling (inject_Z k / inject_Z (2 ^ (- e)))) <= C.
Proof.
  intros He Hk HC.
  destruct (ceiling_quotient k (2 ^ (- e)) C) as [E Hb];
    [apply pow2_pos; lia | exact Hk |].
  rewrite E. split; [|exact Hb].
  cbn [ceil_to_int64].
  assert (Hc : (if 0 <=? e then k * 2 ^ e else - (- k / 2 ^ (- e)))
               = - (- k / 2 ^ (- e))).
  { destruct (Z.leb_spec 0 e); [|reflexivity].
    assert (e = 0) as -> by lia. cbn [Z.opp]. rewrite Z.pow_0_r, Z.mul_1_r, Z.div_1_r.
    lia. }
  rewrite Hc.
  assert (Hin : in_int64 (- (- k / 2 ^ (- e))) = true) by (apply in_int64_spec; lia).
  now rewrite Hin.
Qed.

(** Within the exact range the float arithmetic of lines 53-64 is the
    rational one. *)
Lemma bottleneck_exact (self : UnetAudioSeparator) (B t : Z) :
  exact_range self B -> Z.abs t <= B ->
  bottleneck self t = inr (exact_bottleneck self t)
  /\ Z.abs (exact_bottleneck self t) <= 3 * B.
Proof.
  intros (Hn & HB & Hf & Hm & Hi & Ho & Hfit) Ht.
  assert (H8 : 8 * B <= 2 ^ 53).
  { assert (2 ^ 3 <= 2 ^ (num_layers self + 3)) by (apply Z.pow_le_mono_r; lia).
    change (2 ^ 3) with 8 in *. nia. }
  unfold bottleneck, rem_final, exact_bottleneck, exact_rem_final.
  rewrite !float_of_int_exact by lia. cbn [ebind].
  rewrite fsub_int_exact by (cbn [Z.opp]; rewrite ?Z.pow_0_r; lia).
  rewrite fadd_int_exact by (cbn [Z.opp]; rewrite ?Z.pow_0_r; lia).
  cbn [Z.opp]. rewrite Z.pow_0_r, !Z.mul_1_r.
  destruct (rem_loop_exact self B (Z.to_nat (num_layers self)) HB Hm 0
              (t - output_filter_size self + 1) 0 0
              (inject_Z t - inject_Z (output_filter_size self) + 1)%Q)
    as (k' & -> & Hk' & Hv).
  - lia.
  - rewrite Z2Nat.id by lia. exact Hfit.
  - cbn [Z.opp]. rewrite Z.pow_0_r. lia.
  - cbn [Z.opp]. rewrite Z.pow_0_r. q_normalise. field.
  - cbn [ebind].
    destruct (ceil_to_int64_exact k' (0 - Z.of_nat (Z.to_nat (num_layers self)))
                (3 * B)) as [E Hb]; [lia | exact Hk' | lia |].
    rewrite E, (Qceiling_comp _ _ Hv). split; [reflexivity|].
    rewrite <- (Qceiling_comp _ _ Hv). exact Hb.
Qed.

(** ** [int64] values that do not wrap *)

Lemma wrap64_range (z : Z) : - 2 ^ 63 <= wrap64 z < 2 ^ 63.
Proof.
  unfold wrap64.
  pose proof (Z.mod_pos_bound (z + 2 ^ 63) (2 ^ 64) eq_refl).
  change (2 ^ 64) with (2 * 2 ^ 63) in *. lia.
Qed.

Lemma wrap64_small (z : Z) : - 2 ^ 63 <= z < 2 ^ 63 -> wrap64 z = z.
Proof.
  intros H. unfold wrap64. rewrite Z.mod_small; [lia|].
  change (2 ^ 64) with (2 * 2 ^ 63). lia.
Qed.

Lemma same_int64_wrap (a b : Z) : same_int64 a b -> same_int64 (wrap64 a) b.
Proof.
  intros [k Hk]. unfold same_int64, wrap64.
  exists (k - (a + 2 ^ 63) / 2 ^ 64).
  pose proof (Z.div_mod (a + 2 ^ 63) (2 ^ 64)). lia.
Qed.

Lemma same_int64_refl (a : Z) : same_int64 a a.
Proof. exists 0. lia. Qed.

Lemma same_int64_double (a b : Z) : same_int64 a b -> same_int64 (2 * a) (2 * b).
Proof. intros [k Hk]. exists (2 * k). lia. Qed.

Lemma same_int64_add (a b c : Z) : same_int64 a b -> same_int64 (a + c) (b + c).
Proof. intros [k Hk]. exists k. lia. Qed.

Lemma same_int64_sub (a b c : Z) : same_int64 a b -> same_int64 (a - c) (b - c).
Proof. intros [k Hk]. exists k. lia. Qed.

Lemma same_int64_eq (a b : Z) :
  same_int64 a b -> - 2 ^ 63 <= a < 2 ^ 63 -> - 2 ^ 63 <= b < 2 ^ 63 -> a = b.
Proof.
  intros [k Hk] Ha Hb. change (2 ^ 64) with (2 * 2 ^ 63) in Hk. nia.
Qed.

Create HintDb int64.

#[local] Hint Resolve same_int64_wrap same_int64_double same_int64_add
  same_int64_sub same_int64_refl : int64.

Lemma int64_of_int_inr (k k' : Z) : int64_of_int k = inr k' -> k' = k.
Proof.
  unfold int64_of_int. destruct (in_int64 k); [now intros [= <-] | discriminate].
Qed.

(** A pass of the loop that returns has computed the [int64] values of
    what the pass without wrap-around computes. *)
Lemma shape_step_wrap (self : UnetAudioSeparator) (i o v o' v' O V : Z) :
  shape_step self i (o, v) = inr (o', v') ->
  same_int64 o O -> same_int64 v V ->
  same_int64 o' (fst (exact_shape_step self i (O, V)))
  /\ same_int64 v' (snd (exact_shape_step self i (O, V)))
  /\ - 2 ^ 63 <= o' < 2 ^ 63 /\ - 2 ^ 63 <= v' < 2 ^ 63.
Proof.
  unfold shape_step, exact_shape_step. intros H Ho Hv.
  destruct (int64_of_int (merge_filter_size self)) as [e|k] eqn:Ek;
    [discriminate|]. apply int64_of_int_inr in Ek. subst k. cbn [ebind] in H.
  cbn [fst snd].
  destruct (i <? num_layers self - 1).
  - destruct (int64_of_int (filter_size self)) as [e|k] eqn:Ek;
      [discriminate|]. apply int64_of_int_inr in Ek. subst k. cbn [ebind] in H.
    assert (Eo : o' = wrap64 (wrap64 (wrap64 (wrap64 (2 * o) - 1)
                                      - merge_filter_size self) + 1))
      by congruence.
    assert (Ev : v' = wrap64 (wrap64 (wrap64 (wrap64 (2 * v) - 1)
                                      + filter_size self) - 1))
      by congruence.
    subst o' v'.
    split; [|split; [|split]]; auto 10 with int64; apply wrap64_range.
  - destruct (int64_of_int (input_filter_size self)) as [e|k] eqn:Ek;
      [discriminate|]. apply int64_of_int_inr in Ek. subst k. cbn [ebind] in H.
    assert (Eo : o' = wrap64 (wrap64 (wrap64 (wrap64 (2 * o) - 1)
                                      - merge_filter_size self) + 1))
      by congruence.
    assert (Ev : v' = wrap64 (wrap64 (wrap64 (wrap64 (2 * v) - 1)
                                      + input_filter_size self) - 1))
      by congruence.
    subst o' v'.
    split; [|split; [|split]]; auto 10 with int64; apply wrap64_range.
Qed.

Lemma shape_loop_wrap (self : UnetAudioSeparator) (n : nat) :
  forall (i o v o' v' O V : Z),
    for_rangeE (shape_step self) n i (o, v) = inr (o', v') ->
    same_int64 o O -> same_int64 v V -> - 2 ^ 63 <= v < 2 ^ 63 ->
    same_int64 o' (fst (for_range (exact_shape_step self) n i (O, V)))
    /\ same_int64 v' (snd (for_range (exact_shape_step self) n i (O, V)))
    /\ - 2 ^ 63 <= v' < 2 ^ 63.
Proof.
  induction n as [|n IH]; intros i o v o' v' O V H Ho Hv Hr.
  - assert (o' = o) by (cbn in H; congruence).
    assert (v' = v) by (cbn in H; congruence). subst. auto.
  - cbn [for_rangeE for_range] in *.
    destruct (shape_step self i (o, v)) as [e|[o1 v1]] eqn:E; [discriminate|].
    cbn [ebind] in H.
    destruct (shape_step_wrap _ _ _ _ _ _ _ _ E Ho Hv) as (Ho1 & Hv1 & _ & Hr1).
    destruct (exact_shape_step self i (O, V)) as [O1 V1].
    now apply (IH _ _ _ _ _ _ _ H).
Qed.

Lemma wrap64_unique (r z : Z) :
  same_int64 r z -> - 2 ^ 63 <= r < 2 ^ 63 -> r = wrap64 z.
Proof.
  intros [k Hk] Hr. apply same_int64_eq; [| exact Hr | apply wrap64_range].
  destruct (same_int64_wrap z z (same_int64_refl z)) as [k' Hk'].
  exists (k - k'). lia.
Qed.

(** The lengths [lengths_from] returns are the [int64] values of the
    lengths without wrap-around. *)
Lemma lengths_from_wrap (self : UnetAudioSeparator) (x o v : Z) :
  lengths_from self x = inr (o, v) ->
  o = wrap64 (fst (exact_lengths_from self x))
  /\ v = wrap64 (snd (exact_lengths_from self x)).
Proof.
  unfold lengths_from, exact_lengths_from. intros H.
  destruct (int64_of_int (filter_size self)) as [e|k] eqn:Ek; [discriminate|].
  apply int64_of_int_inr in Ek. subst k. cbn [ebind] in H.
  destruct (for_rangeE _ _ _ _) as [e|[o1 v1]] eqn:E; [discriminate|].
  cbn [ebind] in H.
  destruct (int64_of_int (output_filter_size self)) as [e|k] eqn:Ek; [discriminate|].
  apply int64_of_int_inr in Ek. subst k. cbn [ebind] in H.
  assert (Eo : o = wrap64 (wrap64 (o1 - output_filter_size self) + 1))
    by congruence.
  assert (Ev : v = v1) by congruence. subst o v. clear H.
  destruct (shape_loop_wrap _ _ _ _ _ _ _ x (x + filter_size self - 1) E)
    as (Ho & Hv & Hr);
    [auto with int64 | auto 10 with int64 | apply wrap64_range |].
  destruct (for_range _ _ _ _) as [O V]. cbn [fst snd] in *. split.
  - apply wrap64_unique; [auto 10 with int64 | apply wrap64_range].
  - now apply wrap64_unique.
Qed.

(** With kernel widths that are [int64] values nothing raises. *)
Lemma shape_loop_returns (self : UnetAudioSeparator) (n : nat) :
  in_int64 (filter_size self) = true ->
  in_int64 (merge_filter_size self) = true ->
  in_int64 (input_filter_size self) = true ->
  forall (i : Z) (s : Z * Z),
  exists s', for_rangeE (shape_step self) n i s = inr s'.
Proof.
  intros Hf Hm Hi. induction n as [|n IH]; intros i [o v].
  - eexists. reflexivity.
  - cbn [for_rangeE]. unfold shape_step at 1. unfold int64_of_int.
    rewrite Hm, Hf, Hi. cbn [ebind].
    destruct (i <? num_layers self - 1); cbn [ebind]; apply IH.
Qed.

Lemma lengths_from_returns (self : UnetAudioSeparator) (x : Z) :
  in_int64 (filter_size self) = true ->
  in_int64 (merge_filter_size self) = true ->
  in_int64 (input_filter_size self) = true ->
  in_int64 (output_filter_size self) = true ->
  exists o v, lengths_from self x = inr (o, v).
Proof.
  intros Hf Hm Hi Ho. unfold lengths_from, int64_of_int. rewrite Hf, Ho.
  cbn [ebind].
  destruct (shape_loop_returns self (Z.to_nat (num_layers self)) Hf Hm Hi 0
              (x, wrap64 (wrap64 (x + filter_size self) - 1))) as [[o v] ->].
  cbn [ebind]. eauto.
Qed.

(** ** [get_padding] within the exact range *)

Lemma output_loop_bound (self : UnetAudioSeparator) (B : Z) (n : nat) :
  Z.abs (merge_filter_size self) <= B ->
  forall (i v : Z),
    Z.abs (for_range (output_step self) n i v) + (B + 2)
    <= 2 ^ Z.of_nat n * (Z.abs v + (B + 2)).
Proof.
  intros Hm. induction n as [|n IH]; intros i v.
  - cbn [for_range]. change (2 ^ Z.of_nat 0) with 1. lia.
  - cbn [for_range]. specialize (IH (i + 1) (output_step self i v)).
    rewrite Nat2Z.inj_succ, Z.pow_succ_r by lia.
    assert (Hs : Z.abs (output_step self i v) <= 2 * Z.abs v + B + 2)
      by (unfold output_step, exact_shape_step; cbn [fst snd]; lia).
    pose proof (pow2_pos (Z.of_nat n) ltac:(lia)). nia.
Qed.

Lemma input_loop_bound (self : UnetAudioSeparator) (B : Z) (n : nat) :
  Z.abs (filter_size self) <= B -> Z.abs (input_filter_size self) <= B ->
  forall (i v : Z),
    Z.abs (for_range (input_step self) n i v) + (B + 2)
    <= 2 ^ Z.of_nat n * (Z.abs v + (B + 2)).
Proof.
  intros Hf Hi. induction n as [|n IH]; intros i v.
  - cbn [for_range]. change (2 ^ Z.of_nat 0) with 1. lia.
  - cbn [for_range]. specialize (IH (i + 1) (input_step self i v)).
    rewrite Nat2Z.inj_succ, Z.pow_succ_r by lia.
    assert (Hs : Z.abs (input_step self i v) <= 2 * Z.abs v + B + 2)
      by (unfold input_step, exact_shape_step; cbn [fst snd];
          destruct (i <? num_layers self - 1); lia).
    pose proof (pow2_pos (Z.of_nat n) ltac:(lia)). nia.
Qed.

Lemma exact_range_int64 (self : UnetAudioSeparator) (B : Z) :
  exact_range self B ->
  8 * B <= 2 ^ 53 /\
  in_int64 (filter_size self) = true /\
  in_int64 (merge_filter_size self) = true /\
  in_int64 (input_filter_size self) = true /\
  in_int64 (output_filter_size self) = true.
Proof.
  intros (Hn & HB & Hf & Hm & Hi & Ho & Hfit).
  assert (H8 : 8 * B <= 2 ^ 53).
  { assert (2 ^ 3 <= 2 ^ (num_layers self + 3)) by (apply Z.pow_le_mono_r; lia).
    change (2 ^ 3) with 8 in *. nia. }
  assert (2 ^ 53 < 2 ^ 63) by (apply Z.pow_lt_mono_r; lia).
  split; [exact H8|]. repeat split; apply in_int64_spec; lia.
Qed.

(** Within the exact range the lengths do not wrap. *)
Lemma lengths_from_exact (self : UnetAudioSeparator) (B x : Z) :
  exact_range self B -> Z.abs x <= 3 * B ->
  lengths_from self x = inr (exact_lengths_from self x).
Proof.
  intros HR Hx.
  destruct (exact_range_int64 self B HR) as (H8 & If & Im & Ii & Io).
  destruct HR as (Hn & HB & Hf & Hm & Hi & Ho & Hfit).
  destruct (lengths_from_returns self x If Im Ii Io) as (o & v & E).
  rewrite E. destruct (lengths_from_wrap self x o v E) as [-> ->].
  rewrite exact_lengths_from_split. cbn [fst snd].
  pose proof (output_loop_bound self B (Z.to_nat (num_layers self)) Hm 0 x) as Ho'.
  pose proof (input_loop_bound self B (Z.to_nat (num_layers self)) Hf Hi 0
                (x + filter_size self - 1)) as Hi'.
  rewrite Z2Nat.id in Ho', Hi' by lia.
  assert (Hp : 2 ^ (num_layers self + 3) = 8 * 2 ^ num_layers self)
    by (rewrite Z.pow_add_r by lia; change (2 ^ 3) with 8; lia).
  pose proof (pow2_pos (num_layers self) Hn) as Hpos.
  assert (H53 : 2 ^ 53 * 2 ^ 9 < 2 ^ 63) by (vm_compute; reflexivity).
  set (P := 2 ^ num_layers self) in *.
  set (O := for_range (output_step self) _ 0 x) in *.
  set (V := for_range (input_step self) _ 0 _) in *.
  assert (HBP : B * P * 8 <= 2 ^ 53) by lia.
  assert (HPle : P <= B * P) by (clear - HB Hpos; nia).
  assert (HBle : B <= B * P) by (clear - HB Hpos; nia).
  assert (HO : Z.abs O + (B + 2) <= P * (4 * B + 2)).
  { etransitivity; [exact Ho'|]. apply Z.mul_le_mono_nonneg_l; lia. }
  assert (HV : Z.abs V + (B + 2) <= P * (5 * B + 3)).
  { etransitivity; [exact Hi'|]. apply Z.mul_le_mono_nonneg_l; lia. }
  rewrite Z.mul_add_distr_l in HO, HV.
  rewrite (Z.mul_comm P (4 * B)), (Z.mul_comm P (5 * B)) in *.
  rewrite <- !Z.mul_assoc in HO, HV.
  rewrite !wrap64_small; [reflexivity | lia | lia].
Qed.

Lemma get_padding_exact (self : UnetAudioSeparator) (B : Z) (sh : shape) (t : Z) :
  exact_range self B ->
  index sh 1 = inr t -> Z.abs t <= B ->
  get_padding self sh = exact_get_padding self sh.
Proof.
  intros HR Ht HtB. unfold get_padding, exact_get_padding.
  destruct (context self).
  - rewrite Ht. cbn [ebind].
    destruct (bottleneck_exact self B t HR HtB) as [-> Hx]. cbn [ebind].
    destruct (2 <=? exact_bottleneck self t); [|reflexivity].
    rewrite (lengths_from_exact self B _ HR Hx).
    destruct (exact_lengths_from self (exact_bottleneck self t)) as [o v].
    cbn [ebind]. now destruct (index sh 0).
  - destruct (index sh 0); cbn [ebind]; [reflexivity|].
    now rewrite Ht.
Qed.

(** ** [get_padding] as a whole *)

Lemma get_padding_no_context (self : UnetAudioSeparator) (b t c : Z) :
  context self = false ->
  get_padding self [b; t; c]
  = inr ([b; t; num_channels self], [b; t; num_channels self]).
Proof.
  intros Hc. unfold get_padding. now rewrite Hc.
Qed.

Lemma get_padding_no_context_inv (self : UnetAudioSeparator) (sh i o : shape) :
  context self = false ->
  get_padding self sh = inr (i, o) ->
  exists b t,
    index sh 0 = inr b /\ index sh 1 = inr t /\
    i = [b; t; num_channels self] /\ o = [b; t; num_channels self].
Proof.
  intros Hc. unfold get_padding. rewrite Hc.
  destruct (index sh 0) as [e|b] eqn:Eb; [discriminate|].
  destruct (index sh 1) as [e|t] eqn:Et; [discriminate|]. cbn [ebind].
  intros H. exists b, t.
  repeat split; solve [assumption | reflexivity | congruence].
Qed.

Lemma get_padding_context_inv (self : UnetAudioSeparator) (sh i o : shape) :
  context self = true ->
  get_padding self sh = inr (i, o) ->
  exists b t x lo li,
    index sh 0 = inr b /\ index sh 1 = inr t /\
    bottleneck self t = inr x /\ 2 <= x /\
    lengths_from self x = inr (lo, li) /\
    i = [b; li; num_channels self] /\ o = [b; lo; num_channels self].
Proof.
  intros Hc. unfold get_padding. rewrite Hc.
  destruct (index sh 1) as [e|t] eqn:Et; [discriminate|]. cbn [ebind].
  destruct (bottleneck self t) as [e|x] eqn:Ex; [discriminate|]. cbn [ebind].
  destruct (Z.leb_spec 2 x) as [Hx|Hx]; [|discriminate].
  destruct (lengths_from self x) as [e|[lo li]] eqn:El; [discriminate|].
  cbn [ebind].
  destruct (index sh 0) as [e|b] eqn:Eb; [discriminate|]. cbn [ebind].
  intros H. exists b, t, x, lo, li.
  repeat split; solve [assumption | reflexivity | congruence].
Qed.

Lemma get_padding_context (self : UnetAudioSeparator) (b t c : Z) :
  context self = true ->
  get_padding self [b; t; c]
  = (x <-? bottleneck self t ;;
     if 2 <=? x then
       '(lo, li) <-? lengths_from self x ;;
       inr ([b; li; num_channels self], [b; lo; num_channels self])
     else inl AssertionError).
Proof.
  intros Hc. unfold get_padding. rewrite Hc. cbn [index nth_error ebind].
  destruct (bottleneck self t) as [e|x]; [reflexivity|]. cbn [ebind].
  destruct (2 <=? x); [|reflexivity].
  now destruct (lengths_from self x) as [e|[lo li]].
Qed.

(** ** What [get_padding] raises *)

Lemma float_of_int_error (z : Z) (e : exn) :
  float_of_int z = inl e -> e = OverflowError.
Proof.
  unfold float_of_int. destruct (round64 z 0); congruence.
Qed.

Lemma int64_of_int_error (z : Z) (e : exn) :
  int64_of_int z = inl e -> e = OverflowError.
Proof.
  unfold int64_of_int. destruct (in_int64 z); congruence.
Qed.

Lemma for_rangeE_error {S : Type} (body : Z -> S -> exn + S) (n : nat) :
  (forall j s e, body j s = inl e -> e = OverflowError) ->
  forall (i : Z) (s : S) (e : exn),
    for_rangeE body n i s = inl e -> e = OverflowError.
Proof.
  intros Hb. induction n as [|n IH]; intros i s e H.
  - discriminate.
  - cbn [for_rangeE] in H. destruct (body i s) as [e'|s'] eqn:E.
    + cbn [ebind] in H. injection H as <-. exact (Hb _ _ _ E).
    + exact (IH _ _ _ H).
Qed.

Lemma bottleneck_error (self : UnetAudioSeparator) (t : Z) (e : exn) :
  bottleneck self t = inl e -> e = OverflowError.
Proof.
  unfold bottleneck, rem_final. intros H.
  destruct (float_of_int t) as [e1|r] eqn:E1.
  { cbn [ebind] in H. injection H as <-. exact (float_of_int_error _ _ E1). }
  cbn [ebind] in H.
  destruct (float_of_int (output_filter_size self)) as [e2|k] eqn:E2.
  { cbn [ebind] in H. injection H as <-. exact (float_of_int_error _ _ E2). }
  cbn [ebind] in H.
  destruct (for_rangeE _ _ _ _) as [e3|r3] eqn:E3; [|discriminate].
  cbn [ebind] in H. injection H as <-.
  apply (for_rangeE_error _ _) in E3; [exact E3|].
  intros j s e3' Hs. unfold rem_step in Hs.
  destruct (float_of_int (merge_filter_size self)) as [e4|k4] eqn:E4;
    [|discriminate].
  cbn [ebind] in Hs. injection Hs as <-. exact (float_of_int_error _ _ E4).
Qed.

Lemma shape_step_error (self : UnetAudioSeparator) (j : Z) (s : Z * Z) (e : exn) :
  shape_step self j s = inl e -> e = OverflowError.
Proof.
  destruct s as [o v]. unfold shape_step. intros H.
  destruct (int64_of_int (merge_filter_size self)) as [e1|k] eqn:E1.
  { cbn [ebind] in H. injection H as <-. exact (int64_of_int_error _ _ E1). }
  cbn [ebind] in H.
  destruct (j <? num_layers self - 1).
  - destruct (int64_of_int (filter_size self)) as [e2|k2] eqn:E2; [|discriminate].
    cbn [ebind] in H. injection H as <-. exact (int64_of_int_error _ _ E2).
  - destruct (int64_of_int (input_filter_size self)) as [e2|k2] eqn:E2;
      [|discriminate].
    cbn [ebind] in H. injection H as <-. exact (int64_of_int_error _ _ E2).
Qed.

Lemma lengths_from_error (self : UnetAudioSeparator) (x : Z) (e : exn) :
  lengths_from self x = inl e -> e = OverflowError.
Proof.
  unfold lengths_from. intros H.
  destruct (int64_of_int (filter_size self)) as [e1|k] eqn:E1.
  { cbn [ebind] in H. injection H as <-. exact (int64_of_int_error _ _ E1). }
  cbn [ebind] in H.
  destruct (for_rangeE _ _ _ _) as [e2|[o v]] eqn:E2.
  { cbn [ebind] in H. injection H as <-.
    exact (for_rangeE_error _ _ (shape_step_error self) _ _ _ E2). }
  cbn [ebind] in H.
  destruct (int64_of_int (output_filter_size self)) as [e3|k3] eqn:E3;
    [|discriminate].
  cbn [ebind] in H. injection H as <-. exact (int64_of_int_error _ _ E3).
Qed.

(** Decides a closed comparison of integers by computation. *)
Ltac z_decide :=
  first [ apply Z.leb_le | apply Z.ltb_lt ]; vm_compute; reflexivity.

Lemma wave_u_net_exact_range : exact_range (init wave_u_net_config) (2 ^ 38).
Proof. unfold exact_range. cbn. repeat split; z_decide. Qed.

Lemma sample_exact_range (ctx : bool) :
  exact_range (init (sample_config ctx 3 1)) (2 ^ 40).
Proof. unfold exact_range. cbn. repeat split; z_decide. Qed.

(** ** The specification's statements on [get_padding] *)

(** C1, as the code has it.  Within the exact range (kernel widths and a
    requested time length of absolute value [B] at most, with
    [B * 2 ^ (num_layers + 3) <= 2 ^ 53], so that no float operation of
    lines 53-61 rounds) the bottleneck length [x] that [get_padding]
    derives is the value of the backward algorithm that rounds up at every
    decoder stage: start from [T - output_filter_size + 1], then per stage
    add [merge_filter_size - 1] and take [ceil((rem + 1) / 2)].  The source
    rounds up once, after the loop. *)
Theorem bottleneck_backward_algorithm (self : UnetAudioSeparator) (B t : Z) :
  exact_range self B -> Z.abs t <= B ->
  bottleneck self t = inr (spec_bottleneck self t).
Proof.
  intros HR Ht. destruct (bottleneck_exact self B t HR Ht) as [-> _].
  now rewrite exact_bottleneck_backward_algorithm.
Qed.

Lemma bottleneck_backward_algorithm_witness :
  exact_range (init wave_u_net_config) (2 ^ 38) /\
  Z.abs 16384 <= 2 ^ 38 /\
  bottleneck (init wave_u_net_config) 16384
  = inr (spec_bottleneck (init wave_u_net_config) 16384).
Proof.
  split; [exact wave_u_net_exact_range|]. split; [z_decide|].
  apply (bottleneck_backward_algorithm (init wave_u_net_config) (2 ^ 38) 16384).
  - exact wave_u_net_exact_range.
  - z_decide.
Defined.

(** C1, as stated, fails: with 55 layers and kernels of width 1, asked for
    5 samples, the float [rem] reaches [1 + 2^-53], which rounds to 1, so
    the code has the bottleneck length 1 where the algorithm that rounds
    up at every stage has 2. *)
Lemma bottleneck_rounds_at_55_layers :
  bottleneck (init deep_config) 5 = inr 1 /\
  spec_bottleneck (init deep_config) 5 = 2.
Proof. split; vm_compute; reflexivity. Qed.

(** C2, as the code has it.  In context mode: with kernel widths that are
    [int64] values, a bottleneck length of exactly 2 makes [get_padding]
    return its pair of complete shapes; a bottleneck length below 2 makes
    it raise the assertion error; and whatever the request, the outcome is
    two complete three-entry shapes, the assertion error, or the
    [OverflowError] of a number too large to convert. *)
Theorem bottleneck_boundary (self : UnetAudioSeparator) (b t c : Z) :
  context self = true ->
  (in_int64 (filter_size self) = true ->
   in_int64 (merge_filter_size self) = true ->
   in_int64 (input_filter_size self) = true ->
   in_int64 (output_filter_size self) = true ->
   bottleneck self t = inr 2 ->
   exists li lo, get_padding self [b; t; c]
                 = inr ([b; li; num_channels self], [b; lo; num_channels self])) /\
  (forall x, bottleneck self t = inr x -> x < 2 ->
             get_padding self [b; t; c] = inl AssertionError) /\
  ((exists li lo, get_padding self [b; t; c]
                  = inr ([b; li; num_channels self], [b; lo; num_channels self]))
   \/ get_padding self [b; t; c] = inl AssertionError
   \/ get_padding self [b; t; c] = inl OverflowError).
Proof.
  intros Hc. rewrite (get_padding_context _ _ _ _ Hc). split; [|split].
  - intros Hf Hm Hi Ho ->. cbn [ebind Z.leb Z.compare Pos.compare Pos.compare_cont].
    destruct (lengths_from_returns self 2 Hf Hm Hi Ho) as (lo & li & ->).
    cbn [ebind]. eauto.
  - intros x -> Hx. cbn [ebind].
    destruct (Z.leb_spec 2 x); [lia|reflexivity].
  - destruct (bottleneck self t) as [e|x] eqn:Ex.
    { right. right. cbn [ebind]. now rewrite (bottleneck_error _ _ _ Ex). }
    cbn [ebind]. destruct (2 <=? x); [|now right; left].
    destruct (lengths_from self x) as [e|[lo li]] eqn:El.
    + right. right. cbn [ebind]. now rewrite (lengths_from_error _ _ _ El).
    + left. cbn [ebind]. eauto.
Qed.

Lemma bottleneck_boundary_witness :
  context (init (sample_config true 1 1)) = true /\
  bottleneck (init (sample_config true 1 1)) 5 = inr 2 /\
  bottleneck (init (sample_config true 1 1)) 1 = inr 1 /\
  (exists li lo, get_padding (init (sample_config true 1 1)) [1; 5; 2]
                 = inr ([1; li; 2], [1; lo; 2])) /\
  get_padding (init (sample_config true 1 1)) [1; 1; 2] = inl AssertionError.
Proof.
  split; [reflexivity|].
  split; [vm_compute; reflexivity|].
  split; [vm_compute; reflexivity|].
  split.
  - apply (proj1 (bottleneck_boundary (init (sample_config true 1 1)) 1 5 2 eq_refl));
      vm_compute; reflexivity.
  - apply (proj1 (proj2 (bottleneck_boundary (init (sample_config true 1 1)) 1 1 2
                           eq_refl)) 1).
    + vm_compute; reflexivity.
    + z_decide.
Defined.

(** C2, as stated, fails: a requested time length of [2^1024] is beyond the
    range of a float, and [get_padding] raises [OverflowError] at line 53,
    which is neither a result nor the assertion error. *)
Lemma get_padding_overflow_error :
  context (init (sample_config true 3 1)) = true /\
  get_padding (init (sample_config true 3 1)) [1; 2 ^ 1024; 2] = inl OverflowError.
Proof. split; vm_compute; reflexivity. Qed.




(** C4.  Without context, [get_padding] returns the requested batch and
    time entries unchanged, twice, with the configured channel count in
    place of the requested one. *)
Theorem no_context_identity (self : UnetAudioSeparator) (b t c : Z) :
  context self = false ->
  get_padding self [b; t; c]
  = inr ([b; t; num_channels self], [b; t; num_channels self]).
Proof.
  exact (get_padding_no_context self b t c).
Qed.

Lemma no_context_identity_witness :
  context (init (sample_config false 3 1)) = false /\
  get_padding (init (sample_config false 3 1)) [8; 1000; 7]
  = inr ([8; 1000; 2], [8; 1000; 2]).
Proof.
  split; [reflexivity|].
  apply (no_context_identity (init (sample_config false 3 1)) 8 1000 7).
  reflexivity.
Defined.




(** C9.  With an output kernel wider than 1 the output length
    [get_padding] returns can fall short of the requested one: two layers,
    kernels 3/5/3 and an output kernel of width 3, asked for 100 output
    samples, give 99.  Line 56 undoes the output convolution with the
    forward formula [rem - output_filter_size + 1], where line 60 undoes
    the decoder convolutions with [rem + merge_filter_size - 1]. *)
Theorem output_shorter_than_request :
  get_padding (init (sample_config true 5 3)) [1; 100; 2]
  = inr ([1; 127; 2], [1; 99; 2]).
Proof. vm_compute. reflexivity. Qed.

(** C10.  [get_padding] reads the batch and the time entry of the
    requested shape only: two requests that differ in the channel entry
    alone get the same answer, in both modes, and the channel entry of
    both returned shapes is the configured channel count, 1 under mono
    downmix and 2 otherwise. *)
Theorem channel_entry_ignored (c : model_config) (b t ch ch' : Z) :
  get_padding (init c) [b; t; ch] = get_padding (init c) [b; t; ch'] /\
  (forall i o,
     get_padding (init c) [b; t; ch] = inr (i, o) ->
     nth_error i 2 = Some (if cfg_mono_downmix c then 1 else 2) /\
     nth_error o 2 = Some (if cfg_mono_downmix c then 1 else 2)).
Proof.
  split; [reflexivity|].
  intros i o Hg. destruct (context (init c)) eqn:Hc.
  - destruct (get_padding_context_inv _ _ _ _ Hc Hg)
      as (b0 & t0 & x & lo & li & _ & _ & _ & _ & _ & -> & ->).
    split; reflexivity.
  - destruct (get_padding_no_context_inv _ _ _ _ Hc Hg)
      as (b0 & t0 & _ & _ & -> & ->).
    split; reflexivity.
Qed.

Lemma channel_entry_ignored_witness :
  get_padding (init wave_u_net_config) [16; 16384; 2]
  = get_padding (init wave_u_net_config) [16; 16384; 5] /\
  nth_error [16; 147443; 1] 2 = Some 1 /\
  nth_error [16; 16389; 1] 2 = Some 1.
Proof.
  destruct (channel_entry_ignored wave_u_net_config 16 16384 2 5) as [E H].
  split; [exact E|].
  apply (H [16; 147443; 1] [16; 16389; 1]).
  vm_compute; reflexivity.
Defined.

(** ** The assembly monad *)

Lemma bind_log {A B : Type} (m : M A) (f : A -> M B) :
  fst (bind m f)
  = fst m ++ match snd m with inl _ => [] | inr a => fst (f a) end.
Proof.
  destruct m as [l [e|a]]; simpl.
  - now rewrite app_nil_r.
  - now destruct (f a).
Qed.

Lemma bind_inr {A B : Type} (m : M A) (f : A -> M B) (l : list event) (a : A) :
  m = (l, inr a) -> bind m f = (l ++ fst (f a), snd (f a)).
Proof.
  intros ->. simpl. now destruct (f a).
Qed.

Lemma bind_inr_inv {A B : Type} (m : M A) (f : A -> M B) (l : list event) (b : B) :
  bind m f = (l, inr b) ->
  exists l1 a l2, m = (l1, inr a) /\ f a = (l2, inr b) /\ l = l1 ++ l2.
Proof.
  destruct m as [l1 [e|a]]; simpl; [discriminate|].
  destruct (f a) as [l2 r] eqn:Ef. intros [= <- ->].
  exists l1, a, l2. auto.
Qed.

Lemma bind_Forall {A B : Type} (P : event -> Prop) (m : M A) (f : A -> M B) :
  Forall P (fst m) -> (forall a, Forall P (fst (f a))) ->
  Forall P (fst (bind m f)).
Proof.
  intros Hm Hf. rewrite bind_log. apply Forall_app. split; [exact Hm|].
  destruct (snd m); [constructor | apply Hf].
Qed.

Lemma bind_no_assertion_error {A B : Type} (m : M A) (f : A -> M B) :
  no_assertion_error m -> (forall a, no_assertion_error (f a)) ->
  no_assertion_error (bind m f).
Proof.
  unfold no_assertion_error. intros Hm Hf.
  destruct m as [l [e|a]]; simpl in *.
  - intros [= ->]. now apply Hm.
  - specialize (Hf a). now destruct (f a).
Qed.

Lemma py_index_log {A : Type} (l : list A) (j : Z) : fst (py_index l j) = [].
Proof.
  unfold py_index. destruct (_ <? 0); [reflexivity|].
  now destruct (nth_error l _).
Qed.

Lemma py_index_no_assertion_error {A : Type} (l : list A) (j : Z) :
  no_assertion_error (py_index l j).
Proof.
  unfold no_assertion_error, py_index. destruct (_ <? 0); [discriminate|].
  now destruct (nth_error l _).
Qed.

(** [l[-i-1]] is the entry [i] places before the last one. *)
Lemma py_index_from_end {A : Type} (pre post : list A) (a : A) (i : Z) :
  Z.of_nat (List.length post) = i ->
  py_index (pre ++ a :: post) (- i - 1) = ret a.
Proof.
  intros Hi. unfold py_index.
  destruct (Z.ltb_spec (- i - 1) 0) as [_|H]; [|lia].
  rewrite length_app. cbn [List.length].
  replace (Z.of_nat (List.length pre + Datatypes.S (List.length post)) + (- i - 1))
    with (Z.of_nat (List.length pre)) by lia.
  destruct (Z.ltb_spec (Z.of_nat (List.length pre)) 0) as [H|_]; [lia|].
  rewrite Nat2Z.id, nth_error_app2, Nat.sub_diag by lia. reflexivity.
Qed.

(** ** Convolution blocks *)

Lemma conv1d_log (x : tensor) (k n_filt : Z) (pad : padding_mode) :
  fst (conv1d x k n_filt pad) = [].
Proof.
  destruct pad; simpl; [|reflexivity]. now destruct (k <=? time_steps x).
Qed.

Lemma conv_layer_eq (self : UnetAudioSeparator) (scope : var_scope)
    (k n_filt : Z) (x : tensor) :
  conv_layer self scope k n_filt x
  = (get_variable scope [k; channels x; n_filt]
       :: (if mhe self
           then [add_thomson_constraint scope n_filt (mhe_model self) (mhe_power self)]
           else []),
     snd (conv1d x k n_filt (padding self))).
Proof.
  unfold conv_layer.
  destruct (conv1d x k n_filt (padding self)) as [l r] eqn:E.
  pose proof (conv1d_log x k n_filt (padding self)) as Hl.
  rewrite E in Hl. simpl in Hl. subst l.
  destruct (mhe self), r; reflexivity.
Qed.

(** A convolution block that succeeds yields [n_filt] channels. *)
Lemma conv_layer_channels (self : UnetAudioSeparator) (scope : var_scope)
    (k n_filt : Z) (x y : tensor) (l : list event) :
  conv_layer self scope k n_filt x = (l, inr y) -> channels y = n_filt.
Proof.
  rewrite conv_layer_eq. intros [= _ H]. revert H. unfold conv1d.
  destruct (padding self); [destruct (k <=? time_steps x)|];
    simpl; intros [= <-]; reflexivity.
Qed.

Lemma conv_layer_no_assertion_error (self : UnetAudioSeparator)
    (scope : var_scope) (k n_filt : Z) (x : tensor) :
  no_assertion_error (conv_layer self scope k n_filt x).
Proof.
  rewrite conv_layer_eq. unfold no_assertion_error, conv1d. cbn [snd].
  destruct (padding self); [destruct (k <=? time_steps x)|]; discriminate.
Qed.

Lemma conv_layer_well_declared (self : UnetAudioSeparator) (scope : var_scope)
    (k n_filt : Z) (x : tensor) :
  well_declared self (get_variable scope [k; channels x; n_filt]) ->
  well_declared self
    (add_thomson_constraint scope n_filt (mhe_model self) (mhe_power self)) ->
  Forall (well_declared self) (fst (conv_layer self scope k n_filt x)).
Proof.
  intros Hv Ht. rewrite conv_layer_eq. cbn [fst].
  constructor; [exact Hv|]. destruct (mhe self); repeat constructor; exact Ht.
Qed.

Lemma down_conv_well_declared (self : UnetAudioSeparator) (i : Z) (x : tensor) :
  0 <= i < num_layers self \/ i = num_layers self ->
  Forall (well_declared self)
    (fst (conv_layer self (down_conv_ i) (filter_size self)
            (num_initial_filters self + num_initial_filters self * i) x)).
Proof.
  intros Hi. apply conv_layer_well_declared; cbn [well_declared].
  - split; [exact Hi|]. exists (channels x). do 3 f_equal. lia.
  - lia.
Qed.

Lemma up_conv_well_declared (self : UnetAudioSeparator) (i : Z) (x : tensor) :
  0 <= i < num_layers self ->
  Forall (well_declared self)
    (fst (conv_layer self (up_conv_ i) (merge_filter_size self)
            (num_initial_filters self
             + num_initial_filters self * (num_layers self - i - 1)) x)).
Proof.
  intros Hi. apply conv_layer_well_declared; cbn [well_declared].
  - split; [exact Hi|]. exists (channels x). do 3 f_equal. lia.
  - lia.
Qed.

(** ** The loops of [get_output] *)

Lemma for_rangeM_Forall {S : Type} (P : event -> Prop) (body : Z -> S -> M S)
    (hi : Z) (n : nat) :
  forall (i : Z) (s : S),
    0 <= i -> i + Z.of_nat n <= hi ->
    (forall j s', 0 <= j < hi -> Forall P (fst (body j s'))) ->
    Forall P (fst (for_rangeM body n i s)).
Proof.
  induction n as [|n IH]; intros i s Hi Hn Hb.
  - constructor.
  - cbn [for_rangeM]. apply bind_Forall.
    + apply Hb. lia.
    + intros s'. apply IH; [lia | lia | exact Hb].
Qed.

Lemma for_rangeM_no_assertion_error {S : Type} (body : Z -> S -> M S) (n : nat) :
  forall (i : Z) (s : S),
    (forall j s', no_assertion_error (body j s')) ->
    no_assertion_error (for_rangeM body n i s).
Proof.
  induction n as [|n IH]; intros i s Hb.
  - discriminate.
  - cbn [for_rangeM]. apply bind_no_assertion_error; [apply Hb|].
    intros s'. now apply IH.
Qed.

(** A loop that ran to its end logged what each pass logs. *)
Lemma for_rangeM_In {S : Type} (body : Z -> S -> M S) (ev : Z -> event -> Prop)
    (n : nat) :
  (forall j s s' l, body j s = (l, inr s') -> exists e, ev j e /\ In e l) ->
  forall (i : Z) (s s' : S) (l : list event),
    for_rangeM body n i s = (l, inr s') ->
    forall j, i <= j < i + Z.of_nat n -> exists e, ev j e /\ In e l.
Proof.
  intros Hb. induction n as [|n IH]; intros i s s' l Hr j Hj.
  - lia.
  - cbn [for_rangeM] in Hr.
    apply bind_inr_inv in Hr as (l1 & s1 & l2 & H1 & H2 & ->).
    destruct (Z.eq_dec j i) as [->|Hne].
    + destruct (Hb _ _ _ _ H1) as (e & He & Hin).
      exists e. split; [exact He|]. apply in_or_app. now left.
    + destruct (IH _ _ _ _ H2 j) as (e & He & Hin); [lia|].
      exists e. split; [exact He|]. apply in_or_app. now right.
Qed.

Section GetOutputFacts.

Variable learned_interpolation_layer : tensor -> padding_mode -> Z -> tensor.
Variable self : UnetAudioSeparator.

Lemma output_layer_log (input : tensor) (training : bool) (x : tensor) :
  fst (output_layer self input training x) = [].
Proof.
  unfold output_layer.
  destruct (output_activation self =? "tanh")%string;
    [|destruct (output_activation self =? "linear")%string];
    simpl; try reflexivity;
    (destruct (output_type self =? "direct")%string;
     [|destruct (output_type self =? "difference")%string]); reflexivity.
Qed.

Lemma get_output_log (input : tensor) (training : bool) :
  fst (get_output learned_interpolation_layer self input training) = fst (assemble learned_interpolation_layer self input).
Proof.
  unfold get_output. rewrite bind_log.
  destruct (snd _); [|rewrite output_layer_log]; apply app_nil_r.
Qed.

Lemma down_block_well_declared (i : Z) (s : list tensor * tensor) :
  0 <= i < num_layers self ->
  Forall (well_declared self) (fst (down_block self i s)).
Proof.
  intros Hi. destruct s as [encs x]. unfold down_block.
  apply bind_Forall; [|constructor].
  apply down_conv_well_declared. now left.
Qed.

Lemma up_block_well_declared (encs : list tensor) (i : Z) (x : tensor) :
  0 <= i < num_layers self ->
  Forall (well_declared self) (fst (up_block learned_interpolation_layer self encs i x)).
Proof.
  intros Hi. unfold up_block.
  apply bind_Forall; [rewrite py_index_log; constructor|]. intros enc.
  apply bind_Forall; [unfold assert; destruct (_ || _); constructor|]. intros _.
  now apply up_conv_well_declared.
Qed.

Lemma assemble_well_declared (input : tensor) :
  Forall (well_declared self) (fst (assemble learned_interpolation_layer self input)).
Proof.
  unfold assemble.
  apply bind_Forall.
  { apply for_rangeM_Forall with (hi := Z.of_nat (Z.to_nat (num_layers self)));
      [lia|lia|].
    intros j s Hj. apply down_block_well_declared. lia. }
  intros [encs x]. apply bind_Forall.
  { apply down_conv_well_declared. now right. }
  intros y. apply bind_Forall; [|constructor].
  apply for_rangeM_Forall with (hi := Z.of_nat (Z.to_nat (num_layers self)));
    [lia|lia|].
  intros j s Hj. apply up_block_well_declared. lia.
Qed.

Lemma down_block_declares (i : Z) (s s' : list tensor * tensor) (l : list event) :
  down_block self i s = (l, inr s') ->
  exists e,
    (exists c_in, e = get_variable (down_conv_ i)
                        [filter_size self; c_in; num_initial_filters self * (i + 1)]) /\ In e l.
Proof.
  destruct s as [encs x]. unfold down_block. rewrite conv_layer_eq.
  intros H. apply bind_inr_inv in H as (l1 & y & l2 & [= <- _] & _ & ->).
  eexists. split; [exists (channels x)|left]; [|reflexivity].
  do 4 f_equal. lia.
Qed.

Lemma up_block_declares (encs : list tensor) (i : Z) (x y : tensor)
    (l : list event) :
  up_block learned_interpolation_layer self encs i x = (l, inr y) ->
  exists e,
    (exists c_in, e = get_variable (up_conv_ i)
                        [merge_filter_size self; c_in;
                         num_initial_filters self * (num_layers self - i)]) /\ In e l.
Proof.
  unfold up_block. intros H.
  apply bind_inr_inv in H as (l1 & enc & l2 & _ & H & ->).
  apply bind_inr_inv in H as (l3 & u & l4 & _ & H & ->).
  rewrite conv_layer_eq in H. injection H as <- _.
  eexists. split; [eexists|apply in_or_app; right; apply in_or_app; right; left];
    [|reflexivity].
  do 4 f_equal. lia.
Qed.

Lemma assemble_declares (input out : tensor) (l : list event) :
  assemble learned_interpolation_layer self input = (l, inr out) ->
  (forall i, 0 <= i < num_layers self ->
     exists c_in, In (get_variable (down_conv_ i)
                        [filter_size self; c_in; num_initial_filters self * (i + 1)]) l) /\
  (exists c_in, In (get_variable (down_conv_ (num_layers self))
                      [filter_size self; c_in; num_initial_filters self * (num_layers self + 1)]) l) /\
  (forall i, 0 <= i < num_layers self ->
     exists c_in, In (get_variable (up_conv_ i)
                        [merge_filter_size self; c_in;
                         num_initial_filters self * (num_layers self - i)]) l).
Proof.
  unfold assemble. intros H.
  apply bind_inr_inv in H as (l1 & [encs x] & l2 & Hd & H & ->).
  apply bind_inr_inv in H as (l3 & y & l4 & Hb & H & ->).
  apply bind_inr_inv in H as (l5 & z & l6 & Hu & _ & ->).
  split; [|split].
  - intros i Hi.
    destruct (for_rangeM_In _ _ _ down_block_declares _ _ _ _ Hd i)
      as (e & [c_in ->] & Hin); [lia|].
    exists c_in. apply in_or_app. now left.
  - unfold last_down_conv in Hb. rewrite conv_layer_eq in Hb.
    injection Hb as <- _. exists (channels x).
    apply in_or_app. right. apply in_or_app. left. left.
    do 4 f_equal. lia.
  - intros i Hi.
    destruct (for_rangeM_In _ _ _ (up_block_declares encs) _ _ _ _ Hu i)
      as (e & [c_in ->] & Hin); [lia|].
    exists c_in. apply in_or_app. right. apply in_or_app. right.
    apply in_or_app. now left.
Qed.

End GetOutputFacts.

(** C5.  Whatever the build, every weight tensor [get_output] declares has
    the filter count of its layer as last entry, which is the channel
    count the convolution produces: [num_initial_filters * (i + 1)] for
    encoder layer [i] and for the bottleneck (layer [num_layers]), and
    [num_initial_filters * (num_layers - i)] for decoder stage [i]; and an
    assembly that reaches the output layer has declared one for each of
    these layers. *)
Theorem conv_output_channels
    (learned_interpolation_layer : tensor -> padding_mode -> Z -> tensor)
    (self : UnetAudioSeparator) (input : tensor) (training : bool) :
  let log := fst (get_output learned_interpolation_layer self input training) in
  let nif := num_initial_filters self in
  Forall (well_declared self) log /\
  (forall out,
     snd (assemble learned_interpolation_layer self input) = inr out ->
     (forall i, 0 <= i < num_layers self ->
        exists c_in, In (get_variable (down_conv_ i)
                           [filter_size self; c_in; nif * (i + 1)]) log) /\
     (exists c_in, In (get_variable (down_conv_ (num_layers self))
                         [filter_size self; c_in; nif * (num_layers self + 1)]) log) /\
     (forall i, 0 <= i < num_layers self ->
        exists c_in, In (get_variable (up_conv_ i)
                           [merge_filter_size self; c_in;
                            nif * (num_layers self - i)]) log)).
Proof.
  intros log nif. subst log. rewrite get_output_log. split.
  - apply assemble_well_declared.
  - intros out Hout.
    destruct (assemble learned_interpolation_layer self input) as [l r] eqn:E.
    simpl in Hout. subst r. cbn [fst].
    exact (assemble_declares _ _ _ _ _ E).
Qed.

Lemma conv_output_channels_witness :
  snd (assemble sample_interpolation (init (sample_config true 3 1)) (sample_input 23))
  = inr {| batch_size := 1; time_steps := 3; channels := 6 |} /\
  (exists c_in,
     In (get_variable (down_conv_ 1) [3; c_in; 4 * (1 + 1)])
        (fst (get_output sample_interpolation (init (sample_config true 3 1))
                (sample_input 23) false))) /\
  (exists c_in,
     In (get_variable (up_conv_ 1) [3; c_in; 4 * (2 - 1)])
        (fst (get_output sample_interpolation (init (sample_config true 3 1))
                (sample_input 23) false))).
Proof.
  split; [vm_compute; reflexivity|].
  destruct (conv_output_channels sample_interpolation
              (init (sample_config true 3 1)) (sample_input 23) false)
    as [_ H].
  destruct (H {| batch_size := 1; time_steps := 3; channels := 6 |})
    as (Hd & _ & Hu); [vm_compute; reflexivity|].
  split; [apply (Hd 1) | apply (Hu 1)]; simpl; lia.
Defined.

(** ** The output layer *)

Lemma output_layer_cases (self : UnetAudioSeparator) (input : tensor)
    (training : bool) (x : tensor) :
  let known_activation :=
    output_activation self = "tanh"%string
    \/ output_activation self = "linear"%string in
  let r := snd (output_layer self input training x) in
  (~ known_activation
   \/ (output_type self <> "direct"%string
       /\ output_type self <> "difference"%string) ->
   r = inl NotImplementedError) /\
  (known_activation -> output_type self = "direct"%string ->
   exists act,
     r = inr (independent_outputs x (source_names self) (num_channels self)
                (output_filter_size self) (padding self) act)) /\
  (known_activation -> output_type self = "difference"%string ->
   exists act,
     r = inr (difference_output (crop input x) x (source_names self)
                (num_channels self) (output_filter_size self) (padding self)
                act training)).
Proof.
  intros known r. subst known r. unfold output_layer.
  destruct (String.eqb_spec (output_activation self) "tanh") as [Ea|Ea];
    [|destruct (String.eqb_spec (output_activation self) "linear") as [Ea'|Ea']];
    (destruct (String.eqb_spec (output_type self) "direct") as [Et|Et];
     [|destruct (String.eqb_spec (output_type self) "difference") as [Et'|Et']]);
    cbn [bind ret raise snd app];
    (split; [|split]);
    try (intros [H|[H1 H2]]; solve [reflexivity | exfalso; tauto | congruence]);
    try (intros H1 H2; solve [eexists; reflexivity | exfalso; tauto
                             | rewrite Et in H2; discriminate
                             | congruence]).
Qed.

(** C7.  Once the assembly has reached the output layer: an output
    activation other than ["tanh"] and ["linear"], or an output type other
    than ["direct"] and ["difference"], makes [get_output] raise
    [NotImplementedError] without calling an output collaborator; with
    known values it returns the call of [independent_outputs] when the
    type is ["direct"] and the call of [difference_output], on the cropped
    input, when the type is ["difference"]. *)
Theorem output_configuration_validated
    (learned_interpolation_layer : tensor -> padding_mode -> Z -> tensor)
    (self : UnetAudioSeparator) (input : tensor) (training : bool)
    (log : list event) (x : tensor) :
  assemble learned_interpolation_layer self input = (log, inr x) ->
  let known_activation :=
    output_activation self = "tanh"%string
    \/ output_activation self = "linear"%string in
  let r := get_output learned_interpolation_layer self input training in
  (~ known_activation
   \/ (output_type self <> "direct"%string
       /\ output_type self <> "difference"%string) ->
   r = (log, inl NotImplementedError)) /\
  (known_activation -> output_type self = "direct"%string ->
   exists act,
     r = (log, inr (independent_outputs x (source_names self) (num_channels self)
                      (output_filter_size self) (padding self) act))) /\
  (known_activation -> output_type self = "difference"%string ->
   exists act,
     r = (log, inr (difference_output (crop input x) x (source_names self)
                      (num_channels self) (output_filter_size self) (padding self)
                      act training))).
Proof.
  intros Ha known r. subst known r. unfold get_output.
  rewrite (bind_inr _ _ _ _ Ha), output_layer_log, app_nil_r.
  destruct (output_layer_cases self input training x) as (H1 & H2 & H3).
  split; [|split].
  - intros H. now rewrite (H1 H).
  - intros Hk Ht. destruct (H2 Hk Ht) as [act ->]. now exists act.
  - intros Hk Ht. destruct (H3 Hk Ht) as [act ->]. now exists act.
Qed.

Lemma output_configuration_validated_witness :
  (assemble sample_interpolation
     (init (with_output (sample_config true 3 1) "sigmoid" "direct"))
     (sample_input 23)
   = (sample_log, inr sample_merged) /\
   get_output sample_interpolation
     (init (with_output (sample_config true 3 1) "sigmoid" "direct"))
     (sample_input 23) false
   = (sample_log, inl NotImplementedError)) /\
  (assemble sample_interpolation
     (init (with_output (sample_config true 3 1) "linear" "difference"))
     (sample_input 23)
   = (sample_log, inr sample_merged) /\
   exists act,
     get_output sample_interpolation
       (init (with_output (sample_config true 3 1) "linear" "difference"))
       (sample_input 23) false
     = (sample_log,
        inr (difference_output (crop (sample_input 23) sample_merged) sample_merged
               ["vocals"; "accompaniment"]%string 2 1 VALID act false))).
Proof.
  split; (split; [vm_compute; reflexivity|]).
  - apply (proj1 (output_configuration_validated sample_interpolation
                    (init (with_output (sample_config true 3 1) "sigmoid" "direct"))
                    (sample_input 23) false sample_log sample_merged eq_refl)).
    left. intros [H|H]; discriminate H.
  - apply (proj2 (proj2 (output_configuration_validated sample_interpolation
                    (init (with_output (sample_config true 3 1) "linear" "difference"))
                    (sample_input 23) false sample_log sample_merged eq_refl))).
    + right. reflexivity.
    + reflexivity.
Defined.

(** ** Skip connections *)

Lemma halving_snoc (n : nat) (k : Z) :
  halving (Datatypes.S n) k = halving n (2 * k) ++ [2 * k].
Proof.
  induction n as [|n IH].
  - reflexivity.
  - change (halving (Datatypes.S (Datatypes.S n)) k)
      with (2 ^ Z.of_nat (Datatypes.S (Datatypes.S n)) * k
            :: halving (Datatypes.S n) k).
    rewrite IH. cbn [halving app]. f_equal.
    rewrite (Nat2Z.inj_succ (Datatypes.S n)), Z.pow_succ_r by lia. lia.
Qed.

Lemma decimate_even (x : tensor) (k : Z) :
  time_steps x = 2 * k -> time_steps (decimate x) = k.
Proof.
  intros H. unfold decimate. cbn [time_steps]. rewrite H.
  replace (2 * k - 1) with (1 + (k - 1) * 2) by lia.
  rewrite Z.div_add by lia. simpl. lia.
Qed.

Section SkipConnections.

Variable learned_interpolation_layer : tensor -> padding_mode -> Z -> tensor.
Variable self : UnetAudioSeparator.

(** With padding, a convolution block keeps the time length. *)
Lemma conv_layer_same (scope : var_scope) (k n_filt : Z) (x : tensor) :
  padding self = SAME ->
  exists l y,
    conv_layer self scope k n_filt x = (l, inr y)
    /\ time_steps y = time_steps x.
Proof.
  intros Hp. rewrite conv_layer_eq, Hp. cbn [conv1d ret snd].
  eexists _, _. split; reflexivity.
Qed.

(** Without padding, one that succeeds shortens it by [k - 1]. *)
Lemma conv_layer_valid (scope : var_scope) (k n_filt : Z) (x y : tensor)
    (l : list event) :
  padding self = VALID ->
  conv_layer self scope k n_filt x = (l, inr y) ->
  time_steps y = time_steps x - k + 1.
Proof.
  intros Hp. rewrite conv_layer_eq, Hp. unfold conv1d.
  destruct (k <=? time_steps x); intros [= _ <-]. reflexivity.
Qed.

Lemma encoder_same (n : nat) :
  padding self = SAME ->
  forall (i : Z) (encs : list tensor) (x : tensor) (k : Z),
    time_steps x = 2 ^ Z.of_nat n * k ->
    exists l new y,
      for_rangeM (down_block self) n i (encs, x) = (l, inr (encs ++ new, y))
      /\ map time_steps new = halving n k
      /\ time_steps y = k.
Proof.
  intros Hp. induction n as [|n IH]; intros i encs x k Hx.
  - exists [], [], x. rewrite app_nil_r. repeat split.
    change (2 ^ Z.of_nat 0) with 1 in Hx. lia.
  - cbn [for_rangeM]. unfold down_block at 1.
    destruct (conv_layer_same (down_conv_ i) (filter_size self)
                (num_initial_filters self + num_initial_filters self * i) x Hp)
      as (l1 & c & -> & Hc).
    cbn [bind ret]. rewrite app_nil_r.
    destruct (IH (i + 1) (encs ++ [c]) (decimate c) k) as (l2 & new & y & -> & Hn & Hy).
    { apply decimate_even. rewrite Hc, Hx, Nat2Z.inj_succ, Z.pow_succ_r by lia. lia. }
    exists (l1 ++ l2), (c :: new), y.
    rewrite <- app_assoc. repeat split; [|exact Hy].
    cbn [map halving]. now rewrite Hn, Hc, Hx.
Qed.

Lemma decoder_same (n : nat) :
  padding self = SAME ->
  (forall x i, time_steps (upsample learned_interpolation_layer self i x)
               = 2 * time_steps x) ->
  forall (i : Z) (encs post : list tensor) (x : tensor) (k : Z),
    map time_steps encs = halving n k ->
    Z.of_nat (List.length post) = i ->
    time_steps x = k ->
    exists l y,
      for_rangeM (up_block learned_interpolation_layer self (encs ++ post)) n i x
      = (l, inr y)
      /\ time_steps y = 2 ^ Z.of_nat n * k.
Proof.
  intros Hp Hup. induction n as [|n IH]; intros i encs post x k He Hi Hx.
  - exists [], x. split; [reflexivity|].
    change (2 ^ Z.of_nat 0) with 1. lia.
  - rewrite halving_snoc in He.
    apply map_eq_app in He as (encs' & last & -> & He' & Hl).
    destruct last as [|e [|? ?]]; try discriminate Hl.
    assert (Hl' : time_steps e = 2 * k) by (cbn [map] in Hl; congruence).
    clear Hl.
    rename Hl' into Hl.
    cbn [for_rangeM]. unfold up_block at 1.
    rewrite <- app_assoc. cbn [app].
    rewrite (py_index_from_end encs' post e i Hi). cbn [bind ret app].
    rewrite Hup, Hl, Hx, Z.eqb_refl. cbn [orb assert bind ret app].
    set (u := crop_and_concat e _).
    destruct (conv_layer_same (up_conv_ i) (merge_filter_size self)
                (num_initial_filters self
                 + num_initial_filters self * (num_layers self - i - 1)) u Hp)
      as (l1 & y1 & -> & Hy1).
    destruct (IH (i + 1) encs' (e :: post) y1 (2 * k) He') as (l2 & y & Hloop & Hy).
    { cbn [List.length]. lia. }
    { rewrite Hy1. unfold u, crop_and_concat. cbn [time_steps].
      rewrite Hup, Hl, Hx. lia. }
    cbn [bind]. rewrite Hloop.
    exists (l1 ++ l2), y. split; [reflexivity|].
    rewrite Hy, Nat2Z.inj_succ, Z.pow_succ_r by lia. lia.
Qed.

(** A multiple of [2 ^ num_layers] goes down and comes back up. *)
Lemma assemble_same (input : tensor) :
  padding self = SAME ->
  (forall x i, time_steps (upsample learned_interpolation_layer self i x)
               = 2 * time_steps x) ->
  0 <= num_layers self ->
  (2 ^ num_layers self | time_steps input) ->
  exists l out,
    assemble learned_interpolation_layer self input = (l, inr out)
    /\ time_steps out = time_steps input.
Proof.
  intros Hp Hup Hn [k Hk]. unfold assemble.
  rewrite <- (Z2Nat.id (num_layers self)) in Hk by lia.
  destruct (encoder_same (Z.to_nat (num_layers self)) Hp 0 [] input k)
    as (l1 & encs & x & -> & He & Hx); [lia|].
  cbn [bind app]. unfold last_down_conv.
  destruct (conv_layer_same (down_conv_ (num_layers self)) (filter_size self)
              (num_initial_filters self
               + num_initial_filters self * num_layers self) x Hp)
    as (l2 & y & -> & Hy).
  cbn [bind].
  destruct (decoder_same (Z.to_nat (num_layers self)) Hp Hup 0 encs [] y k He)
    as (l3 & z & Hz & Hzt); [reflexivity | lia |].
  rewrite app_nil_r in Hz. rewrite Hz. cbn [bind ret].
  eexists _, _. split; [reflexivity|].
  unfold crop_and_concat. cbn [time_steps]. lia.
Qed.

Lemma assemble_context_no_assertion_error (input : tensor) :
  context self = true ->
  no_assertion_error (assemble learned_interpolation_layer self input).
Proof.
  intros Hc. unfold assemble.
  apply bind_no_assertion_error.
  { apply for_rangeM_no_assertion_error. intros j [encs x]. unfold down_block.
    apply bind_no_assertion_error; [apply conv_layer_no_assertion_error|].
    discriminate. }
  intros [encs x]. apply bind_no_assertion_error.
  { apply conv_layer_no_assertion_error. }
  intros y. apply bind_no_assertion_error; [|discriminate].
  apply for_rangeM_no_assertion_error. intros j z. unfold up_block.
  apply bind_no_assertion_error; [apply py_index_no_assertion_error|].
  intros enc. rewrite Hc, orb_true_r.
  apply bind_no_assertion_error; [discriminate|].
  intros _. apply conv_layer_no_assertion_error.
Qed.

(** What a decoder stage that succeeds has seen. *)
Lemma up_block_inv (encs : list tensor) (i : Z) (x y : tensor) (l : list event) :
  up_block learned_interpolation_layer self encs i x = (l, inr y) ->
  exists enc,
    py_index encs (- i - 1) = ret enc /\
    (context self = false ->
     time_steps enc
     = time_steps (upsample learned_interpolation_layer self i x)) /\
    (padding self = VALID ->
     time_steps y
     = Z.min (time_steps enc)
             (time_steps (upsample learned_interpolation_layer self i x))
       - merge_filter_size self + 1).
Proof.
  unfold up_block. intros H.
  apply bind_inr_inv in H as (l1 & enc & l2 & He & H & ->).
  apply bind_inr_inv in H as (l3 & [] & l4 & Ha & H & ->).
  exists enc. split; [|split].
  - pose proof (py_index_log encs (- i - 1)) as Hl. rewrite He in Hl.
    simpl in Hl. now subst l1.
  - intros Hc. rewrite Hc, orb_false_r in Ha. unfold assert in Ha.
    destruct (Z.eqb_spec (time_steps enc)
                (time_steps (upsample learned_interpolation_layer self i x)));
      [assumption|discriminate Ha].
  - intros Hp. now rewrite (conv_layer_valid _ _ _ _ _ _ Hp H).
Qed.

End SkipConnections.

(** C6, as the code has it.  Without context, when the input time length
    is a multiple of [2 ^ num_layers] (and the learned interpolation, where
    it is used, doubles the length as the bilinear one does), every
    decoder stage finds the encoder entry [num_layers - 1 - i] as long as
    the upsampled layer, no assertion fails and the assembly returns a
    tensor as long as the input.  In both modes a decoder stage that
    succeeds has read that entry; without context the two lengths were
    equal, with context the convolution ran on the shorter of the two.
    With context no assertion fails at all. *)
Theorem skip_connection_lengths
    (learned_interpolation_layer : tensor -> padding_mode -> Z -> tensor)
    (c : model_config) (input : tensor) :
  let self := init c in
  let upsampled := upsample learned_interpolation_layer self in
  (cfg_context c = false ->
   (cfg_upsampling c = "learned"%string ->
    forall x i, time_steps (learned_interpolation_layer x SAME i)
                = 2 * time_steps x) ->
   0 <= cfg_num_layers c ->
   (2 ^ cfg_num_layers c | time_steps input) ->
   exists l out,
     assemble learned_interpolation_layer self input = (l, inr out)
     /\ time_steps out = time_steps input) /\
  (forall encs i x l y,
     up_block learned_interpolation_layer self encs i x = (l, inr y) ->
     exists enc,
       py_index encs (- i - 1) = ret enc /\
       (cfg_context c = false ->
        time_steps enc = time_steps (upsampled i x)) /\
       (cfg_context c = true ->
        time_steps y
        = Z.min (time_steps enc) (time_steps (upsampled i x))
          - cfg_merge_filter_size c + 1)) /\
  (cfg_context c = true ->
   no_assertion_error (assemble learned_interpolation_layer self input)).
Proof.
  intros self upsampled. split; [|split].
  - intros Hc Hl Hn Hd.
    apply assemble_same; [unfold self; simpl; now rewrite Hc | | exact Hn | exact Hd].
    intros x i. unfold upsample, self.
    cbn [init upsampling context padding]. rewrite Hc.
    destruct (String.eqb_spec (cfg_upsampling c) "learned") as [E|_].
    + now apply Hl.
    + cbn [resize_bilinear time_steps]. lia.
  - intros encs i x l y H.
    destruct (up_block_inv _ _ _ _ _ _ _ H) as (enc & He & Hno & Hctx).
    exists enc. split; [exact He|]. split; [exact Hno|].
    intros Hc. apply Hctx. unfold self; simpl. now rewrite Hc.
  - intros Hc. now apply assemble_context_no_assertion_error.
Qed.

Lemma skip_connection_lengths_witness :
  cfg_context (sample_config false 3 1) = false /\
  (2 ^ cfg_num_layers (sample_config false 3 1) | time_steps (sample_input 8)) /\
  exists l out,
    assemble sample_interpolation (init (sample_config false 3 1)) (sample_input 8)
    = (l, inr out)
    /\ time_steps out = time_steps (sample_input 8).
Proof.
  split; [reflexivity|]. split; [exists 2; reflexivity|].
  apply (proj1 (skip_connection_lengths sample_interpolation
                  (sample_config false 3 1) (sample_input 8))).
  - reflexivity.
  - intros _ x i. reflexivity.
  - simpl; lia.
  - exists 2; reflexivity.
Defined.

(** C6, as stated, fails: without context, on 5 input samples and two
    layers, the last encoder entry is 3 long and the upsampled bottleneck 4
    long, and the assembly stops on the assertion. *)
Lemma skip_assertion_fails_on_odd_length :
  context (init (sample_config false 3 1)) = false /\
  assemble sample_interpolation (init (sample_config false 3 1)) (sample_input 5)
  = ([get_variable (down_conv_ 0) [3; 2; 4];
      get_variable (down_conv_ 1) [3; 4; 8];
      get_variable (down_conv_ 2) [3; 8; 12]],
     inl AssertionError).
Proof. split; vm_compute; reflexivity. Qed.


(** * Further properties of [get_padding] *)

(** X1.  A requested shape with fewer than two entries makes [get_padding]
    raise [IndexError], with and without context. *)
Theorem get_padding_short_shape (self : UnetAudioSeparator) (sh : shape) :
  (List.length sh < 2)%nat -> get_padding self sh = inl IndexError.
Proof.
  intros H. unfold get_padding.
  destruct sh as [|b [|t sh]]; cbn [List.length] in H; try lia;
    destruct (context self); reflexivity.
Qed.

Lemma get_padding_short_shape_witness :
  (List.length [16] < 2)%nat /\
  get_padding (init wave_u_net_config) [16] = inl IndexError.
Proof.
  split; [cbn; lia|].
  apply (get_padding_short_shape (init wave_u_net_config) [16]). cbn; lia.
Defined.

(** X2.  Within the exact range, feasibility is upward closed: with
    context, when a time length can be served, every longer one in the
    range can. *)
Theorem feasible_upward_closed (self : UnetAudioSeparator) (B : Z)
    (sh sh' i o : shape) (t t' b' : Z) :
  context self = true ->
  exact_range self B ->
  index sh 1 = inr t ->
  index sh' 0 = inr b' ->
  index sh' 1 = inr t' ->
  t <= t' ->
  Z.abs t <= B -> Z.abs t' <= B ->
  get_padding self sh = inr (i, o) ->
  exists i' o', get_padding self sh' = inr (i', o').
Proof.
  intros Hc HR Ht Hb' Ht' Hle HtB HtB' Hg.
  rewrite (get_padding_exact self B sh t HR Ht HtB) in Hg.
  rewrite (get_padding_exact self B sh' t' HR Ht' HtB').
  exact (exact_feasible_upward_closed self sh sh' i o t t' b' Hc Ht Hb' Ht' Hle Hg).
Qed.

Lemma feasible_upward_closed_witness :
  context (init (sample_config true 3 1)) = true /\
  exact_range (init (sample_config true 3 1)) (2 ^ 40) /\
  1 <= 6 /\
  get_padding (init (sample_config true 3 1)) [1; 1; 2]
  = inr ([1; 23; 2], [1; 3; 2]) /\
  exists i' o', get_padding (init (sample_config true 3 1)) [3; 6; 2] = inr (i', o').
Proof.
  split; [reflexivity|]. split; [exact (sample_exact_range true)|].
  split; [z_decide|]. split; [vm_compute; reflexivity|].
  apply (feasible_upward_closed (init (sample_config true 3 1)) (2 ^ 40)
           [1; 1; 2] [3; 6; 2] [1; 23; 2] [1; 3; 2] 1 6 3).
  - reflexivity.
  - exact (sample_exact_range true).
  - reflexivity.
  - reflexivity.
  - reflexivity.
  - z_decide.
  - z_decide.
  - z_decide.
  - vm_compute; reflexivity.
Defined.

(** X3.  Within the exact range the context a configuration needs does
    not depend on the request: any two answers of [get_padding] have the
    same difference between the input and the output time length. *)
Theorem context_size_constant (self : UnetAudioSeparator) (B : Z)
    (sh sh' i o i' o' : shape) (t t' : Z) :
  exact_range self B ->
  index sh 1 = inr t -> Z.abs t <= B ->
  index sh' 1 = inr t' -> Z.abs t' <= B ->
  get_padding self sh = inr (i, o) ->
  get_padding self sh' = inr (i', o') ->
  nth 1 i 0 - nth 1 o 0 = nth 1 i' 0 - nth 1 o' 0.
Proof.
  intros HR Ht HtB Ht' HtB' Hg Hg'.
  rewrite (get_padding_exact self B sh t HR Ht HtB) in Hg.
  rewrite (get_padding_exact self B sh' t' HR Ht' HtB') in Hg'.
  exact (exact_context_size_constant self sh sh' i o i' o' Hg Hg').
Qed.

Lemma context_size_constant_witness :
  exact_range (init wave_u_net_config) (2 ^ 38) /\
  get_padding (init wave_u_net_config) [16; 16384; 1]
  = inr ([16; 147443; 1], [16; 16389; 1]) /\
  get_padding (init wave_u_net_config) [16; 16390; 1]
  = inr ([16; 151539; 1], [16; 20485; 1]) /\
  nth 1 [16; 147443; 1] 0 - nth 1 [16; 16389; 1] 0
  = nth 1 [16; 151539; 1] 0 - nth 1 [16; 20485; 1] 0.
Proof.
  split; [exact wave_u_net_exact_range|].
  split; [vm_compute; reflexivity|]. split; [vm_compute; reflexivity|].
  apply (context_size_constant (init wave_u_net_config) (2 ^ 38)
           [16; 16384; 1] [16; 16390; 1] [16; 147443; 1] [16; 16389; 1]
           [16; 151539; 1] [16; 20485; 1] 16384 16390).
  - exact wave_u_net_exact_range.
  - reflexivity.
  - z_decide.
  - reflexivity.
  - z_decide.
  - vm_compute; reflexivity.
  - vm_compute; reflexivity.
Defined.

(** X4.  Within the exact range and with kernels of width 1 at least, the
    input [get_padding] asks for is never shorter than the output it
    promises. *)
Theorem input_covers_output (self : UnetAudioSeparator) (B : Z)
    (sh i o : shape) (t : Z) :
  1 <= filter_size self -> 1 <= input_filter_size self ->
  1 <= merge_filter_size self -> 1 <= output_filter_size self ->
  exact_range self B ->
  index sh 1 = inr t -> Z.abs t <= B ->
  get_padding self sh = inr (i, o) ->
  nth 1 o 0 <= nth 1 i 0.
Proof.
  intros Hf Hi Hm Ho HR Ht HtB Hg.
  rewrite (get_padding_exact self B sh t HR Ht HtB) in Hg.
  exact (exact_input_covers_output self sh i o Hf Hi Hm Ho Hg).
Qed.

Lemma input_covers_output_witness :
  exact_range (init wave_u_net_config) (2 ^ 38) /\
  get_padding (init wave_u_net_config) [16; 16384; 1]
  = inr ([16; 147443; 1], [16; 16389; 1]) /\
  nth 1 [16; 16389; 1] 0 <= nth 1 [16; 147443; 1] 0.
Proof.
  split; [exact wave_u_net_exact_range|]. split; [vm_compute; reflexivity|].
  apply (input_covers_output (init wave_u_net_config) (2 ^ 38)
           [16; 16384; 1] [16; 147443; 1] [16; 16389; 1] 16384).
  - z_decide.
  - z_decide.
  - z_decide.
  - z_decide.
  - exact wave_u_net_exact_range.
  - reflexivity.
  - z_decide.
  - vm_compute; reflexivity.
Defined.

(** X5.  With context and within the exact range the returned output
    length lies in a window of width [2 ^ num_layers] that starts
    [2 * (output_filter_size - 1)] below the request: the rounding of the
    bottleneck adds less than one step of the output grid. *)
Theorem output_length_window (self : UnetAudioSeparator) (B : Z)
    (sh i o : shape) (t : Z) :
  context self = true ->
  exact_range self B ->
  index sh 1 = inr t -> Z.abs t <= B ->
  get_padding self sh = inr (i, o) ->
  t - 2 * (output_filter_size self - 1) <= nth 1 o 0
  < t - 2 * (output_filter_size self - 1) + 2 ^ num_layers self.
Proof.
  intros Hc HR Ht HtB Hg.
  rewrite (get_padding_exact self B sh t HR Ht HtB) in Hg.
  destruct HR as (Hn & _).
  exact (exact_output_length_window self sh i o t Hc Hn Ht Hg).
Qed.

Lemma output_length_window_witness :
  context (init (sample_config true 5 3)) = true /\
  exact_range (init (sample_config true 5 3)) (2 ^ 40) /\
  get_padding (init (sample_config true 5 3)) [1; 100; 2]
  = inr ([1; 127; 2], [1; 99; 2]) /\
  100 - 2 * (3 - 1) <= nth 1 [1; 99; 2] 0 < 100 - 2 * (3 - 1) + 2 ^ 2.
Proof.
  assert (HR : exact_range (init (sample_config true 5 3)) (2 ^ 40))
    by (unfold exact_range; cbn; repeat split; z_decide).
  split; [reflexivity|]. split; [exact HR|]. split; [vm_compute; reflexivity|].
  apply (output_length_window (init (sample_config true 5 3)) (2 ^ 40)
           [1; 100; 2] [1; 127; 2] [1; 99; 2] 100).
  - reflexivity.
  - exact HR.
  - reflexivity.
  - z_decide.
  - vm_compute; reflexivity.
Defined.

(** The [int64] values of two integers that differ by a multiple of
    [2 ^ n] differ by a multiple of [2 ^ n]. *)
Lemma wrap64_grid (n a d : Z) :
  0 <= n -> (2 ^ n | wrap64 (a + 2 ^ n * d) - wrap64 a).
Proof.
  intros Hn.
  destruct (same_int64_wrap _ _ (same_int64_refl (a + 2 ^ n * d))) as [k1 H1].
  destruct (same_int64_wrap _ _ (same_int64_refl a)) as [k2 H2].
  destruct (Z.le_gt_cases n 64) as [Hle|Hgt].
  - assert (Hp : 2 ^ 64 = 2 ^ n * 2 ^ (64 - n)).
    { rewrite <- Z.pow_add_r by lia. f_equal. lia. }
    rewrite Hp in H1, H2.
    exists (d + (k1 - k2) * 2 ^ (64 - n)).
    set (P := 2 ^ n) in *. set (Q := 2 ^ (64 - n)) in *.
    assert (E : wrap64 (a + P * d) - wrap64 a = P * d + (k1 - k2) * (P * Q))
      by lia.
    rewrite E. ring.
  - assert (Hp : 2 ^ n = 2 ^ 64 * 2 ^ (n - 64)).
    { rewrite <- Z.pow_add_r by lia. f_equal. lia. }
    assert (E : wrap64 (a + 2 ^ n * d) = wrap64 a).
    { apply wrap64_unique; [|apply wrap64_range].
      apply same_int64_wrap. exists (2 ^ (n - 64) * d).
      rewrite Hp. ring. }
    rewrite E, Z.sub_diag. apply Z.divide_0_r.
Qed.

(** X6.  With context the output lengths [get_padding] returns lie on a
    grid of step [2 ^ num_layers]: two returned output lengths differ by a
    multiple of it, and so do the two input lengths. *)
Theorem output_lengths_on_grid (self : UnetAudioSeparator)
    (sh sh' i o i' o' : shape) :
  context self = true ->
  0 <= num_layers self ->
  get_padding self sh = inr (i, o) ->
  get_padding self sh' = inr (i', o') ->
  (2 ^ num_layers self | nth 1 o' 0 - nth 1 o 0)
  /\ (2 ^ num_layers self | nth 1 i' 0 - nth 1 i 0).
Proof.
  intros Hc Hn Hg Hg'.
  destruct (get_padding_context_inv _ _ _ _ Hc Hg)
    as (b & t & x & lo & li & _ & _ & _ & _ & Hl & -> & ->).
  destruct (get_padding_context_inv _ _ _ _ Hc Hg')
    as (b' & t' & x' & lo' & li' & _ & _ & _ & _ & Hl' & -> & ->).
  cbn [nth].
  destruct (lengths_from_wrap _ _ _ _ Hl) as [-> ->].
  destruct (lengths_from_wrap _ _ _ _ Hl') as [-> ->].
  destruct (exact_lengths_from_shift self x x') as [-> ->].
  rewrite Z2Nat.id by lia.
  split; apply wrap64_grid; exact Hn.
Qed.

Lemma output_lengths_on_grid_witness :
  context (init wave_u_net_config) = true /\
  0 <= num_layers (init wave_u_net_config) /\
  get_padding (init wave_u_net_config) [16; 16384; 1]
  = inr ([16; 147443; 1], [16; 16389; 1]) /\
  get_padding (init wave_u_net_config) [16; 16390; 1]
  = inr ([16; 151539; 1], [16; 20485; 1]) /\
  (2 ^ 12 | nth 1 [16; 20485; 1] 0 - nth 1 [16; 16389; 1] 0) /\
  (2 ^ 12 | nth 1 [16; 151539; 1] 0 - nth 1 [16; 147443; 1] 0).
Proof.
  split; [reflexivity|]. split; [cbn; lia|].
  split; [vm_compute; reflexivity|]. split; [vm_compute; reflexivity|].
  apply (output_lengths_on_grid (init wave_u_net_config)
           [16; 16384; 1] [16; 16390; 1]);
    [reflexivity | cbn; lia | vm_compute; reflexivity | vm_compute; reflexivity].
Defined.

(** X7.  Within the exact range, when the output kernel has width 1 (or
    without context), a returned output shape is a fixed point: asking
    [get_padding] for it gives the same pair of shapes again. *)
Theorem returned_output_is_fixed_point (self : UnetAudioSeparator) (B : Z)
    (sh i o : shape) (t : Z) :
  (context self = true -> output_filter_size self = 1) ->
  exact_range self B ->
  index sh 1 = inr t -> Z.abs t <= B ->
  Z.abs (nth 1 o 0) <= B ->
  get_padding self sh = inr (i, o) ->
  get_padding self o = inr (i, o).
Proof.
  intros Ho HR Ht HtB HoB Hg.
  assert (Hidx : index o 1 = inr (nth 1 o 0)).
  { destruct (context self) eqn:Hc.
    - destruct (get_padding_context_inv _ _ _ _ Hc Hg)
        as (b0 & t0 & x & lo & li & _ & _ & _ & _ & _ & _ & ->). reflexivity.
    - destruct (get_padding_no_context_inv _ _ _ _ Hc Hg)
        as (b0 & t0 & _ & _ & _ & ->). reflexivity. }
  rewrite (get_padding_exact self B sh t HR Ht HtB) in Hg.
  rewrite (get_padding_exact self B o _ HR Hidx HoB).
  exact (exact_returned_output_is_fixed_point self sh i o Ho Hg).
Qed.

Lemma returned_output_is_fixed_point_witness :
  output_filter_size (init wave_u_net_config) = 1 /\
  exact_range (init wave_u_net_config) (2 ^ 38) /\
  get_padding (init wave_u_net_config) [16; 16384; 1]
  = inr ([16; 147443; 1], [16; 16389; 1]) /\
  get_padding (init wave_u_net_config) [16; 16389; 1]
  = inr ([16; 147443; 1], [16; 16389; 1]).
Proof.
  split; [reflexivity|]. split; [exact wave_u_net_exact_range|].
  split; [vm_compute; reflexivity|].
  apply (returned_output_is_fixed_point (init wave_u_net_config) (2 ^ 38)
           [16; 16384; 1] [16; 147443; 1] [16; 16389; 1] 16384).
  - intros _. reflexivity.
  - exact wave_u_net_exact_range.
  - reflexivity.
  - z_decide.
  - z_decide.
  - vm_compute; reflexivity.
Defined.

(** Beyond the exact range the fixed point is lost: two layers, kernels
    3/3/3/1.  A request of [2^53 + 3] samples is answered with an output
    length of [2^53 + 7], and a request of [2^53 + 7] with [2^53 + 11]. *)
Example fixed_point_lost_beyond_2_53 :
  get_padding (init (sample_config true 3 1)) [1; 2 ^ 53 + 3; 2]
  = inr ([1; 2 ^ 53 + 27; 2], [1; 2 ^ 53 + 7; 2]) /\
  get_padding (init (sample_config true 3 1)) [1; 2 ^ 53 + 7; 2]
  = inr ([1; 2 ^ 53 + 31; 2], [1; 2 ^ 53 + 11; 2]).
Proof. split; vm_compute; reflexivity. Qed.

(** * Further properties of [get_output] *)

(** ** Monad laws and the last pass of a loop *)

Lemma bind_ret_l {A B : Type} (a : A) (f : A -> M B) : bind (ret a) f = f a.
Proof. unfold bind, ret. now destruct (f a). Qed.

Lemma bind_ret_r {A : Type} (m : M A) : bind m ret = m.
Proof.
  destruct m as [l [e|a]]; [reflexivity|]. simpl. now rewrite app_nil_r.
Qed.

Lemma bind_assoc {A B C : Type} (m : M A) (f : A -> M B) (g : B -> M C) :
  bind (bind m f) g = bind m (fun a => bind (f a) g).
Proof.
  destruct m as [l [e|a]]; [reflexivity|]. simpl.
  destruct (f a) as [l1 [e|b]]; [reflexivity|]. simpl.
  destruct (g b) as [l2 r]. now rewrite app_assoc.
Qed.

Lemma bind_ext {A B : Type} (m : M A) (f g : A -> M B) :
  (forall a, f a = g a) -> bind m f = bind m g.
Proof.
  intros H. destruct m as [l [e|a]]; [reflexivity|]. simpl. now rewrite H.
Qed.

Lemma for_rangeM_succ {S : Type} (body : Z -> S -> M S) (n : nat) :
  forall (i : Z) (s : S),
    for_rangeM body (Datatypes.S n) i s
    = bind (for_rangeM body n i s) (body (i + Z.of_nat n)).
Proof.
  induction n as [|n IH]; intros i s.
  - cbn [for_rangeM]. rewrite bind_ret_l, Z.add_0_r. apply bind_ret_r.
  - change (for_rangeM body (Datatypes.S (Datatypes.S n)) i s)
      with (bind (body i s) (fun s' => for_rangeM body (Datatypes.S n) (i + 1) s')).
    rewrite (bind_ext _ _ _ (fun s' => IH (i + 1) s')).
    rewrite <- bind_assoc.
    replace (i + 1 + Z.of_nat n) with (i + Z.of_nat (Datatypes.S n)) by lia.
    reflexivity.
Qed.

Lemma bind_log_snd_inl {A B : Type} (m : M A) (f : A -> M B) (e : exn) :
  snd m = inl e -> snd (bind m f) = inl e.
Proof.
  destruct m as [l [e'|a]]; simpl; [now intros [= ->] | discriminate].
Qed.

(** A property of logs that the empty log has, that concatenation keeps and
    that every pass of a loop has, holds of the log of the loop. *)
Lemma bind_log_ind {A B : Type} (Q : list event -> Prop) (m : M A) (f : A -> M B) :
  (forall l1 l2, Q l1 -> Q l2 -> Q (l1 ++ l2)) ->
  Q (fst m) -> (forall a, Q (fst (f a))) -> Q (fst (bind m f)).
Proof.
  intros Happ Hm Hf. rewrite bind_log.
  destruct (snd m); [now rewrite app_nil_r | now apply Happ].
Qed.

Lemma for_rangeM_log_ind {S : Type} (Q : list event -> Prop)
    (body : Z -> S -> M S) (n : nat) :
  Q [] ->
  (forall l1 l2, Q l1 -> Q l2 -> Q (l1 ++ l2)) ->
  (forall j s, Q (fst (body j s))) ->
  forall (i : Z) (s : S), Q (fst (for_rangeM body n i s)).
Proof.
  intros Hnil Happ Hb. induction n as [|n IH]; intros i s.
  - exact Hnil.
  - cbn [for_rangeM]. apply bind_log_ind; auto.
Qed.

(** The log of [get_output] is made of the logs of its convolution
    blocks. *)
Lemma get_output_log_ind
    (learned_interpolation_layer : tensor -> padding_mode -> Z -> tensor)
    (self : UnetAudioSeparator) (Q : list event -> Prop)
    (input : tensor) (training : bool) :
  Q [] ->
  (forall l1 l2, Q l1 -> Q l2 -> Q (l1 ++ l2)) ->
  (forall scope k n_filt x, Q (fst (conv_layer self scope k n_filt x))) ->
  Q (fst (get_output learned_interpolation_layer self input training)).
Proof.
  intros Hnil Happ Hconv. rewrite get_output_log. unfold assemble.
  apply bind_log_ind; [exact Happ | |].
  { apply for_rangeM_log_ind; [exact Hnil | exact Happ |].
    intros j [encs x]. unfold down_block.
    apply bind_log_ind; [exact Happ | apply Hconv | intros; exact Hnil]. }
  intros [encs x]. apply bind_log_ind; [exact Happ | apply Hconv |].
  intros y. apply bind_log_ind; [exact Happ | | intros; exact Hnil].
  apply for_rangeM_log_ind; [exact Hnil | exact Happ |].
  intros j z. unfold up_block.
  apply bind_log_ind; [exact Happ | now rewrite py_index_log |].
  intros enc. apply bind_log_ind; [exact Happ | | intros; apply Hconv].
  unfold assert. now destruct (_ || _).
Qed.

(** ** What a run registers *)

(** X8.  In every run of [get_output], successful or not, the Thomson
    constraints registered are, in order, exactly one per declared weight
    tensor, on its scope and filter count, when MHE is on, and none at all
    when it is off. *)
Theorem thomson_constraints_follow_weights
    (learned_interpolation_layer : tensor -> padding_mode -> Z -> tensor)
    (self : UnetAudioSeparator) (input : tensor) (training : bool) :
  let log := fst (get_output learned_interpolation_layer self input training) in
  registered_constraints log
  = if mhe self then constraints_of_weights self log else [].
Proof.
  cbv zeta. apply get_output_log_ind.
  - now destruct (mhe self).
  - intros l1 l2 H1 H2.
    unfold registered_constraints, constraints_of_weights in *.
    rewrite !flat_map_app, H1, H2. now destruct (mhe self).
  - intros scope k n_filt x. rewrite conv_layer_eq. cbn [fst].
    now destruct (mhe self).
Qed.

Lemma declared_scopes_app (l1 l2 : list event) :
  declared_scopes (l1 ++ l2) = declared_scopes l1 ++ declared_scopes l2.
Proof. apply flat_map_app. Qed.

Lemma conv_layer_scopes (self : UnetAudioSeparator) (scope : var_scope)
    (k n_filt : Z) (x : tensor) :
  declared_scopes (fst (conv_layer self scope k n_filt x)) = [scope].
Proof.
  rewrite conv_layer_eq. cbn [fst]. now destruct (mhe self).
Qed.

Lemma for_rangeM_scopes {S : Type} (body : Z -> S -> M S) (sc : Z -> var_scope)
    (n : nat) :
  (forall j s s' l, body j s = (l, inr s') -> declared_scopes l = [sc j]) ->
  forall (i : Z) (s s' : S) (l : list event),
    for_rangeM body n i s = (l, inr s') ->
    declared_scopes l = map sc (zrange n i).
Proof.
  intros Hb. induction n as [|n IH]; intros i s s' l H.
  - injection H as <- _. reflexivity.
  - cbn [for_rangeM] in H.
    apply bind_inr_inv in H as (l1 & s1 & l2 & H1 & H2 & ->).
    rewrite declared_scopes_app, (Hb _ _ _ _ H1), (IH _ _ _ _ H2). reflexivity.
Qed.

Lemma down_block_scopes (self : UnetAudioSeparator) (i : Z)
    (s s' : list tensor * tensor) (l : list event) :
  down_block self i s = (l, inr s') -> declared_scopes l = [down_conv_ i].
Proof.
  destruct s as [encs x]. unfold down_block. intros H.
  apply bind_inr_inv in H as (l1 & y & l2 & H1 & [= <- _] & ->).
  rewrite app_nil_r. rewrite <- (conv_layer_scopes self (down_conv_ i)
    (filter_size self)
    (num_initial_filters self + num_initial_filters self * i) x).
  now rewrite H1.
Qed.

Lemma up_block_scopes
    (learned_interpolation_layer : tensor -> padding_mode -> Z -> tensor)
    (self : UnetAudioSeparator) (encs : list tensor) (i : Z) (x y : tensor)
    (l : list event) :
  up_block learned_interpolation_layer self encs i x = (l, inr y) ->
  declared_scopes l = [up_conv_ i].
Proof.
  unfold up_block. intros H.
  apply bind_inr_inv in H as (l1 & enc & l2 & H1 & H & ->).
  apply bind_inr_inv in H as (l3 & u & l4 & H3 & H & ->).
  pose proof (py_index_log encs (- i - 1)) as E1. rewrite H1 in E1.
  cbn [fst] in E1. subst l1.
  assert (l3 = []) as ->.
  { unfold assert in H3. destruct (_ || _); now injection H3 as <-. }
  cbn [app].
  match type of H with
  | conv_layer ?s ?sc ?k ?n ?t = _ =>
      rewrite <- (conv_layer_scopes s sc k n t)
  end.
  now rewrite H.
Qed.

(** X9.  An assembly that reaches the output layer has declared each
    scope exactly once, in this order: [down_conv_0] to
    [down_conv_<num_layers>], then [up_conv_0] to
    [up_conv_<num_layers - 1>]. *)
Theorem declared_scopes_in_order
    (learned_interpolation_layer : tensor -> padding_mode -> Z -> tensor)
    (self : UnetAudioSeparator) (input out : tensor) (l : list event) :
  assemble learned_interpolation_layer self input = (l, inr out) ->
  declared_scopes l
  = map down_conv_ (zrange (Z.to_nat (num_layers self)) 0)
    ++ [down_conv_ (num_layers self)]
    ++ map up_conv_ (zrange (Z.to_nat (num_layers self)) 0).
Proof.
  unfold assemble. intros H.
  apply bind_inr_inv in H as (l1 & [encs x] & l2 & Hd & H & ->).
  apply bind_inr_inv in H as (l3 & y & l4 & Hb & H & ->).
  apply bind_inr_inv in H as (l5 & z & l6 & Hu & [= <- _] & ->).
  rewrite !declared_scopes_app.
  rewrite (for_rangeM_scopes _ _ _ (down_block_scopes self) _ _ _ _ Hd).
  rewrite (for_rangeM_scopes _ _ _
             (up_block_scopes learned_interpolation_layer self encs) _ _ _ _ Hu).
  unfold last_down_conv in Hb.
  match type of Hb with
  | conv_layer ?s ?sc ?k ?n ?t = _ =>
      rewrite <- (conv_layer_scopes s sc k n t)
  end.
  rewrite Hb. cbn [fst declared_scopes flat_map]. now rewrite app_nil_r.
Qed.

Lemma declared_scopes_in_order_witness :
  assemble sample_interpolation (init (sample_config true 3 1)) (sample_input 23)
  = (sample_log, inr sample_merged) /\
  declared_scopes sample_log
  = [down_conv_ 0; down_conv_ 1; down_conv_ 2; up_conv_ 0; up_conv_ 1].
Proof.
  split; [vm_compute; reflexivity|].
  apply (declared_scopes_in_order sample_interpolation
           (init (sample_config true 3 1)) (sample_input 23) sample_merged
           sample_log).
  vm_compute; reflexivity.
Defined.

(** ** Lengths through the whole assembly *)

Section Lengths.

Variable learned_interpolation_layer : tensor -> padding_mode -> Z -> tensor.
Variable self : UnetAudioSeparator.

(** A decoder stage, once the encoder entry it reads is known. *)
Lemma up_block_eq (encs : list tensor) (i : Z) (x enc : tensor) :
  py_index encs (- i - 1) = ret enc ->
  up_block learned_interpolation_layer self encs i x
  = if (time_steps enc
        =? time_steps (upsample learned_interpolation_layer self i x))
       || context self
    then conv_layer self (up_conv_ i) (merge_filter_size self)
           (num_initial_filters self
            + num_initial_filters self * (num_layers self - i - 1))
           (crop_and_concat enc (upsample learned_interpolation_layer self i x))
    else raise AssertionError.
Proof.
  intros He. unfold up_block. rewrite He, bind_ret_l.
  destruct (_ || _); cbn [assert]; [now rewrite bind_ret_l | reflexivity].
Qed.

Lemma conv_layer_valid_ok (scope : var_scope) (k n_filt : Z) (x : tensor) :
  padding self = VALID ->
  k <= time_steps x ->
  exists l y,
    conv_layer self scope k n_filt x = (l, inr y)
    /\ time_steps y = time_steps x - k + 1.
Proof.
  intros Hp Hk. rewrite conv_layer_eq, Hp. unfold conv1d.
  destruct (Z.leb_spec k (time_steps x)); [|lia].
  eexists _, _. split; reflexivity.
Qed.

(** Without context: [n] encoder layers from a tensor [x] always succeed,
    and the [n] decoder stages that follow come back to the length of [x]
    when it is a multiple of [2 ^ n], and stop on the assertion when it is
    not. *)
Lemma down_up_same (n : nat) :
  padding self = SAME ->
  context self = false ->
  (forall x i, time_steps (upsample learned_interpolation_layer self i x)
               = 2 * time_steps x) ->
  forall (i : Z) (pre : list tensor) (x : tensor),
  exists l1 new y,
    for_rangeM (down_block self) n i (pre, x) = (l1, inr (pre ++ new, y))
    /\ List.length new = n
    /\ forall z,
         time_steps z = time_steps y ->
         ((2 ^ Z.of_nat n | time_steps x) ->
          exists l w,
            for_rangeM (up_block learned_interpolation_layer self (pre ++ new))
              n 0 z = (l, inr w)
            /\ time_steps w = time_steps x)
         /\ (~ (2 ^ Z.of_nat n | time_steps x) ->
             snd (for_rangeM (up_block learned_interpolation_layer self
                                (pre ++ new)) n 0 z)
             = inl AssertionError).
Proof.
  intros Hp Hc Hup. induction n as [|n IH]; intros i pre x.
  - exists [], [], x. rewrite app_nil_r. repeat split.
    + intros _. exists [], z. split; [reflexivity|assumption].
    + intros Hnd. exfalso. apply Hnd. change (2 ^ Z.of_nat 0) with 1.
      apply Z.divide_1_l.
  - destruct (conv_layer_same self (down_conv_ i) (filter_size self)
                (num_initial_filters self + num_initial_filters self * i) x Hp)
      as (l0 & c & Hconv & Hc0).
    destruct (IH (i + 1) (pre ++ [c]) (decimate c))
      as (l1 & new & y & Henc & Hlen & Hdec).
    exists (l0 ++ l1), (c :: new), y.
    split.
    { cbn [for_rangeM]. unfold down_block at 1. rewrite Hconv.
      cbn [bind ret]. rewrite app_nil_r, Henc, <- app_assoc. reflexivity. }
    split; [cbn [List.length]; now rewrite Hlen|].
    intros z Hz. rewrite for_rangeM_succ, Z.add_0_l.
    rewrite <- app_assoc in Hdec. cbn [app] in Hdec.
    destruct (Hdec z Hz) as [Hyes Hno].
    set (L := time_steps x) in *.
    set (L' := time_steps (decimate c)) in *.
    assert (HL' : L' = (L - 1) / 2 + 1)
      by (unfold L', decimate; cbn [time_steps]; now rewrite Hc0).
    assert (Hpow : 2 ^ Z.of_nat (Datatypes.S n) = 2 * 2 ^ Z.of_nat n)
      by (rewrite Nat2Z.inj_succ, Z.pow_succ_r by lia; reflexivity).
    assert (Heven : forall q, L = 2 * q -> L' = q).
    { intros q Hq. rewrite HL', Hq.
      replace (2 * q - 1) with (1 + (q - 1) * 2) by lia.
      rewrite Z.div_add by lia. change (1 / 2) with 0. lia. }
    assert (Hidx : py_index (pre ++ c :: new) (- Z.of_nat n - 1) = ret c)
      by (apply py_index_from_end; lia).
    destruct (Z.BoolSpec_divide (2 ^ Z.of_nat n) L') as [Hd|Hd].
    + destruct (Hyes Hd) as (l & w & Hloop & Hw).
      rewrite Hloop. cbn [bind].
      rewrite (up_block_eq _ _ _ _ Hidx), Hup, Hw, Hc, orb_false_r, Hc0.
      fold L.
      destruct (Z.eqb_spec L (2 * L')) as [E|E].
      * split.
        -- intros _.
           destruct (conv_layer_same self (up_conv_ (Z.of_nat n))
                       (merge_filter_size self)
                       (num_initial_filters self
                        + num_initial_filters self
                          * (num_layers self - Z.of_nat n - 1))
                       (crop_and_concat c
                          (upsample learned_interpolation_layer self
                             (Z.of_nat n) w)) Hp)
             as (l2 & w2 & -> & Hw2).
           exists (l ++ l2), w2. split; [reflexivity|].
           rewrite Hw2. unfold crop_and_concat. cbn [time_steps].
           rewrite Hup, Hw, Hc0. fold L. lia.
        -- intros Hnd. exfalso. apply Hnd. rewrite Hpow, E.
           destruct Hd as [q Hq]. exists q. lia.
      * split.
        -- intros [q Hq]. exfalso. apply E.
           rewrite Hpow in Hq.
           rewrite (Heven (q * 2 ^ Z.of_nat n)) by lia. lia.
        -- intros _. reflexivity.
    + rewrite (bind_log_snd_inl _ _ AssertionError) by (now apply Hno).
      split.
      * intros [q Hq]. exfalso. apply Hd. rewrite Hpow in Hq.
        rewrite (Heven (q * 2 ^ Z.of_nat n)) by lia. now exists q.
      * intros _. reflexivity.
Qed.

End Lengths.

Lemma decimate_odd (x : tensor) (k : Z) :
  time_steps x = 2 * k - 1 -> time_steps (decimate x) = k.
Proof.
  intros H. unfold decimate. cbn [time_steps]. rewrite H.
  replace (2 * k - 1 - 1) with ((k - 1) * 2) by lia.
  rewrite Z.div_mul by lia. lia.
Qed.

Section LengthsWithContext.

Variable learned_interpolation_layer : tensor -> padding_mode -> Z -> tensor.
Variable self : UnetAudioSeparator.

(** With context: on the input length the backward pass of [get_padding]
    computes from a bottleneck length [x], [n] encoder layers lead to the
    length [x + filter_size - 1], and [n] decoder stages from a tensor of
    length [x] lead to the output-side length of [get_padding]. *)
Lemma down_up_valid (n : nat) :
  padding self = VALID ->
  context self = true ->
  (forall x i, time_steps (upsample learned_interpolation_layer self i x)
               = 2 * time_steps x - 1) ->
  input_filter_size self = filter_size self ->
  1 <= filter_size self -> 1 <= merge_filter_size self ->
  forall (i j : Z) (pre : list tensor) (xin : tensor) (x : Z),
    time_steps xin = for_range (input_step self) n j (x + filter_size self - 1) ->
    1 <= for_range (output_step self) n 0 x ->
    exists l1 new y,
      for_rangeM (down_block self) n i (pre, xin) = (l1, inr (pre ++ new, y))
      /\ List.length new = n
      /\ time_steps y = x + filter_size self - 1
      /\ forall z,
           time_steps z = x ->
           exists l w,
             for_rangeM (up_block learned_interpolation_layer self (pre ++ new))
               n 0 z = (l, inr w)
             /\ time_steps w = for_range (output_step self) n 0 x.
Proof.
  intros Hp Hc Hup Hifs Hfs Hm.
  induction n as [|n IH]; intros i j pre xin x Hin Hout.
  - exists [], [], xin. rewrite app_nil_r. repeat split; [exact Hin|].
    intros z Hz. exists [], z. split; [reflexivity|exact Hz].
  - rewrite for_range_succ in Hin, Hout.
    set (IN := for_range (input_step self) n j (x + filter_size self - 1)) in *.
    set (OUT := for_range (output_step self) n 0 x) in *.
    assert (Hin' : time_steps xin = 2 * IN - 1 + filter_size self - 1).
    { rewrite Hin. unfold input_step, exact_shape_step; cbn [fst snd].
      rewrite Hifs. now destruct (_ <? _). }
    assert (Hout' : output_step self (0 + Z.of_nat n) OUT
                    = 2 * OUT - merge_filter_size self).
    { unfold output_step, exact_shape_step; cbn [fst snd]. lia. }
    rewrite Hout' in Hout.
    assert (Hdom : OUT <= IN).
    { unfold OUT, IN.
      rewrite (output_loop_spec self n 0 j), <- (output_loop_spec self n j j).
      apply shape_loop_dominates; lia. }
    destruct (conv_layer_valid_ok self (down_conv_ i) (filter_size self)
                (num_initial_filters self + num_initial_filters self * i) xin Hp)
      as (l0 & c & Hconv & Hc0); [lia|].
    assert (Hdecim : time_steps (decimate c) = IN).
    { apply decimate_odd. lia. }
    destruct (IH (i + 1) j (pre ++ [c]) (decimate c) x Hdecim)
      as (l1 & new & y & Henc & Hlen & Hy & Hdec); [lia|].
    exists (l0 ++ l1), (c :: new), y.
    split.
    { cbn [for_rangeM]. unfold down_block at 1. rewrite Hconv.
      cbn [bind ret]. rewrite app_nil_r, Henc, <- app_assoc. reflexivity. }
    split; [cbn [List.length]; now rewrite Hlen|].
    split; [exact Hy|].
    intros z Hz. rewrite for_rangeM_succ, Z.add_0_l.
    rewrite <- app_assoc in Hdec. cbn [app] in Hdec.
    destruct (Hdec z Hz) as (l & w & Hloop & Hw).
    rewrite Hloop. cbn [bind].
    assert (Hidx : py_index (pre ++ c :: new) (- Z.of_nat n - 1) = ret c)
      by (apply py_index_from_end; lia).
    rewrite (up_block_eq _ _ _ _ _ _ Hidx), Hc, orb_true_r.
    set (u := crop_and_concat c _).
    assert (Hu : time_steps u = 2 * OUT - 1).
    { unfold u, crop_and_concat. cbn [time_steps]. rewrite Hup, Hw. lia. }
    destruct (conv_layer_valid_ok self (up_conv_ (Z.of_nat n))
                (merge_filter_size self)
                (num_initial_filters self
                 + num_initial_filters self * (num_layers self - Z.of_nat n - 1))
                u Hp)
      as (l2 & w2 & -> & Hw2); [lia|].
    exists (l ++ l2), w2. split; [reflexivity|].
    rewrite (for_range_succ (output_step self)). fold OUT.
    rewrite Hout'. lia.
Qed.

End LengthsWithContext.

Lemma upsample_no_context
    (learned_interpolation_layer : tensor -> padding_mode -> Z -> tensor)
    (c : model_config) :
  cfg_context c = false ->
  (cfg_upsampling c = "learned"%string ->
   forall x i, time_steps (learned_interpolation_layer x SAME i)
               = 2 * time_steps x) ->
  forall x i,
    time_steps (upsample learned_interpolation_layer (init c) i x)
    = 2 * time_steps x.
Proof.
  intros Hc Hl x i. unfold upsample.
  cbn [init upsampling context padding]. rewrite Hc.
  destruct (String.eqb_spec (cfg_upsampling c) "learned") as [E|_].
  - now apply Hl.
  - cbn [resize_bilinear time_steps]. lia.
Qed.

Lemma upsample_context
    (learned_interpolation_layer : tensor -> padding_mode -> Z -> tensor)
    (c : model_config) :
  cfg_context c = true ->
  (cfg_upsampling c = "learned"%string ->
   forall x i, time_steps (learned_interpolation_layer x VALID i)
               = 2 * time_steps x - 1) ->
  forall x i,
    time_steps (upsample learned_interpolation_layer (init c) i x)
    = 2 * time_steps x - 1.
Proof.
  intros Hc Hl x i. unfold upsample.
  cbn [init upsampling context padding]. rewrite Hc.
  destruct (String.eqb_spec (cfg_upsampling c) "learned") as [E|_].
  - now apply Hl.
  - cbn [resize_bilinear time_steps]. lia.
Qed.

(** X10.  Without context, an input whose time length is not a multiple of
    [2 ^ num_layers] makes the assembly stop on the skip-connection
    assertion (with an upsampling that doubles the length, as the bilinear
    one does). *)
Theorem no_context_needs_multiple
    (learned_interpolation_layer : tensor -> padding_mode -> Z -> tensor)
    (c : model_config) (input : tensor) :
  cfg_context c = false ->
  (cfg_upsampling c = "learned"%string ->
   forall x i, time_steps (learned_interpolation_layer x SAME i)
               = 2 * time_steps x) ->
  0 <= cfg_num_layers c ->
  ~ (2 ^ cfg_num_layers c | time_steps input) ->
  snd (assemble learned_interpolation_layer (init c) input) = inl AssertionError.
Proof.
  intros Hc Hl Hn Hnd.
  assert (Hp : padding (init c) = SAME) by (cbn; now rewrite Hc).
  assert (Hctx : context (init c) = false) by exact Hc.
  pose proof (upsample_no_context learned_interpolation_layer c Hc Hl) as Hup.
  unfold assemble.
  destruct (down_up_same learned_interpolation_layer (init c)
              (Z.to_nat (num_layers (init c))) Hp Hctx Hup 0 [] input)
    as (l1 & new & y & -> & _ & Hdec).
  cbn [bind app]. unfold last_down_conv.
  destruct (conv_layer_same (init c) (down_conv_ (num_layers (init c)))
              (filter_size (init c))
              (num_initial_filters (init c)
               + num_initial_filters (init c) * num_layers (init c)) y Hp)
    as (l2 & z & -> & Hz).
  cbn [bind].
  destruct (Hdec z Hz) as [_ Hno].
  rewrite Z2Nat.id in Hno by exact Hn. specialize (Hno Hnd).
  destruct (for_rangeM _ _ 0 z) as [l3 r]. cbn [snd] in Hno. subst r.
  reflexivity.
Qed.

Lemma no_context_needs_multiple_witness :
  cfg_context (sample_config false 3 1) = false /\
  0 <= cfg_num_layers (sample_config false 3 1) /\
  ~ (2 ^ cfg_num_layers (sample_config false 3 1) | time_steps (sample_input 6)) /\
  snd (assemble sample_interpolation (init (sample_config false 3 1))
         (sample_input 6))
  = inl AssertionError.
Proof.
  assert (Hnd : ~ (2 ^ cfg_num_layers (sample_config false 3 1)
                   | time_steps (sample_input 6))).
  { intros [q Hq]. cbn in Hq. lia. }
  split; [reflexivity|]. split; [cbn; lia|]. split; [exact Hnd|].
  apply (no_context_needs_multiple sample_interpolation
           (sample_config false 3 1) (sample_input 6)).
  - reflexivity.
  - intros _ x i. reflexivity.
  - cbn; lia.
  - exact Hnd.
Defined.


Lemma exact_assemble_meets_get_padding
    (learned_interpolation_layer : tensor -> padding_mode -> Z -> tensor)
    (c : model_config) (sh i o : shape) (input : tensor) :
  cfg_context c = true ->
  cfg_input_filter_size c = cfg_filter_size c ->
  1 <= cfg_filter_size c ->
  1 <= cfg_merge_filter_size c ->
  1 <= cfg_output_filter_size c ->
  (cfg_upsampling c = "learned"%string ->
   forall x lvl, time_steps (learned_interpolation_layer x VALID lvl)
                 = 2 * time_steps x - 1) ->
  exact_get_padding (init c) sh = inr (i, o) ->
  1 <= nth 1 o 0 ->
  time_steps input = nth 1 i 0 ->
  exists l merged,
    assemble learned_interpolation_layer (init c) input = (l, inr merged)
    /\ time_steps merged = nth 1 o 0 + cfg_output_filter_size c - 1.
Proof.
  intros Hc Hifs Hfs Hm Hofs Hl Hg Hpos Hin.
  set (self := init c) in *.
  assert (Hctx : context self = true) by exact Hc.
  assert (Hp : padding self = VALID) by (cbn; now rewrite Hc).
  pose proof (upsample_context learned_interpolation_layer c Hc Hl) as Hup.
  fold self in Hup.
  destruct (exact_get_padding_context_inv _ _ _ _ Hctx Hg)
    as (b & t & _ & _ & Hx & -> & ->).
  rewrite exact_lengths_from_split in Hpos, Hin |- *. cbn [fst snd nth] in Hpos, Hin |- *.
  set (x := exact_bottleneck self t) in *.
  set (n := Z.to_nat (num_layers self)) in *.
  change (cfg_output_filter_size c) with (output_filter_size self).
  change (output_filter_size self) with (cfg_output_filter_size c) in Hpos.
  destruct (down_up_valid learned_interpolation_layer self n Hp Hctx Hup
              Hifs Hfs Hm 0 0 [] input x Hin)
    as (l1 & new & y & Henc & _ & Hy & Hdec); [lia|].
  change ([] ++ new) with new in Henc, Hdec.
  destruct (conv_layer_valid_ok self (down_conv_ (num_layers self))
              (filter_size self)
              (num_initial_filters self
               + num_initial_filters self * num_layers self) y Hp)
    as (l2 & z & Hconv & Hz).
  { rewrite Hy. change (filter_size self) with (cfg_filter_size c). lia. }
  destruct (Hdec z) as (l3 & w & Hloop & Hw).
  { rewrite Hz, Hy. lia. }
  unfold assemble. fold n. rewrite Henc. cbn [bind app].
  unfold last_down_conv. rewrite Hconv. cbn [bind].
  rewrite Hloop. cbn [bind ret].
  eexists _, _. split; [reflexivity|].
  unfold crop_and_concat. cbn [time_steps]. rewrite Hw, Hin.
  assert (Hdom : for_range (output_step self) n 0 x
                 <= for_range (input_step self) n 0 (x + filter_size self - 1)).
  { apply shape_loop_dominates;
      change (filter_size self) with (cfg_filter_size c);
      change (input_filter_size self) with (cfg_input_filter_size c);
      change (merge_filter_size self) with (cfg_merge_filter_size c); lia. }
  change (output_filter_size self) with (cfg_output_filter_size c). lia.
Qed.


(** X11.  [get_output] delivers what [get_padding] promises.  With
    context, within the exact range, with kernels of width 1 at least, the
    same kernel for the input layer as for the other encoder layers (the
    only one [get_output] uses), and an upsampling to [2L - 1] time steps:
    fed with a tensor of the input length [get_padding] returns, the
    assembly succeeds and hands the output layer exactly
    [output_filter_size - 1] more time steps than the positive output
    length [get_padding] returns, which is what a last valid convolution
    of that width consumes. *)
Theorem assemble_meets_get_padding
    (learned_interpolation_layer : tensor -> padding_mode -> Z -> tensor)
    (c : model_config) (B : Z) (sh i o : shape) (t : Z) (input : tensor) :
  cfg_context c = true ->
  cfg_input_filter_size c = cfg_filter_size c ->
  1 <= cfg_filter_size c ->
  1 <= cfg_merge_filter_size c ->
  1 <= cfg_output_filter_size c ->
  (cfg_upsampling c = "learned"%string ->
   forall x lvl, time_steps (learned_interpolation_layer x VALID lvl)
                 = 2 * time_steps x - 1) ->
  exact_range (init c) B ->
  index sh 1 = inr t -> Z.abs t <= B ->
  get_padding (init c) sh = inr (i, o) ->
  1 <= nth 1 o 0 ->
  time_steps input = nth 1 i 0 ->
  exists l merged,
    assemble learned_interpolation_layer (init c) input = (l, inr merged)
    /\ time_steps merged = nth 1 o 0 + cfg_output_filter_size c - 1.
Proof.
  intros Hc Hifs Hfs Hm Hofs Hl HR Ht HtB Hg Hpos Hin.
  rewrite (get_padding_exact (init c) B sh t HR Ht HtB) in Hg.
  exact (exact_assemble_meets_get_padding learned_interpolation_layer c sh i o
           input Hc Hifs Hfs Hm Hofs Hl Hg Hpos Hin).
Qed.

Lemma assemble_meets_get_padding_witness :
  exact_range (init wave_u_net_config) (2 ^ 38) /\
  get_padding (init wave_u_net_config) [16; 16384; 1]
  = inr ([16; 147443; 1], [16; 16389; 1]) /\
  exists l merged,
    assemble sample_interpolation (init wave_u_net_config)
      {| batch_size := 16; time_steps := 147443; channels := 1 |}
    = (l, inr merged)
    /\ time_steps merged = 16389 + 1 - 1.
Proof.
  split; [exact wave_u_net_exact_range|]. split; [vm_compute; reflexivity|].
  apply (assemble_meets_get_padding sample_interpolation wave_u_net_config
           (2 ^ 38) [16; 16384; 1] [16; 147443; 1] [16; 16389; 1] 16384
           {| batch_size := 16; time_steps := 147443; channels := 1 |}).
  - reflexivity.
  - reflexivity.
  - z_decide.
  - z_decide.
  - z_decide.
  - intros _ x lvl. reflexivity.
  - exact wave_u_net_exact_range.
  - reflexivity.
  - z_decide.
  - vm_compute; reflexivity.
  - z_decide.
  - reflexivity.
Defined.

(** Beyond the exact range the promise is not kept: with 64 layers and
    kernels 1/3/1/1 the input length [get_padding] computes, [2^65 + 1],
    wraps around to 1; the assembly fed with one time step stops with
    [ValueError] in the decoder. *)
Example assemble_fails_on_wrapped_length :
  get_padding (init wide_config) [1; 3; 2] = inr ([1; 1; 2], [1; 3; 2]) /\
  snd (assemble sample_interpolation (init wide_config)
         {| batch_size := 1; time_steps := 1; channels := 2 |})
  = inl ValueError.
Proof. split; vm_compute; reflexivity. Qed.

(** X12.  The tensor the assembly hands to the output layer has the
    channels of the input followed by the [num_initial_filters] channels of
    the last convolution. *)
Theorem merged_channels
    (learned_interpolation_layer : tensor -> padding_mode -> Z -> tensor)
    (self : UnetAudioSeparator) (input out : tensor) (l : list event) :
  0 <= num_layers self ->
  assemble learned_interpolation_layer self input = (l, inr out) ->
  channels out = channels input + num_initial_filters self.
Proof.
  intros Hn. unfold assemble. intros H.
  apply bind_inr_inv in H as (l1 & [encs x] & l2 & Hd & H & ->).
  apply bind_inr_inv in H as (l3 & y & l4 & Hb & H & ->).
  apply bind_inr_inv in H as (l5 & z & l6 & Hu & [= _ <-] & ->).
  unfold crop_and_concat. cbn [channels]. f_equal.
  apply conv_layer_channels in Hb.
  destruct (Z.to_nat (num_layers self)) as [|n] eqn:En.
  - injection Hu as _ <-.
    assert (E0 : num_layers self = 0) by lia. rewrite Hb, E0. lia.
  - rewrite for_rangeM_succ in Hu.
    apply bind_inr_inv in Hu as (l7 & w & l8 & _ & Hlast & _).
    unfold up_block in Hlast.
    apply bind_inr_inv in Hlast as (l9 & enc & l10 & _ & Hlast & _).
    apply bind_inr_inv in Hlast as (l11 & u & l12 & _ & Hlast & _).
    apply conv_layer_channels in Hlast. rewrite Hlast.
    replace (num_layers self - (0 + Z.of_nat n) - 1) with 0 by lia. lia.
Qed.

Lemma merged_channels_witness :
  0 <= num_layers (init (sample_config true 3 1)) /\
  assemble sample_interpolation (init (sample_config true 3 1)) (sample_input 23)
  = (sample_log, inr sample_merged) /\
  channels sample_merged = channels (sample_input 23) + 4.
Proof.
  split; [cbn; lia|]. split; [vm_compute; reflexivity|].
  apply (merged_channels sample_interpolation (init (sample_config true 3 1))
           (sample_input 23) sample_merged sample_log).
  - cbn; lia.
  - vm_compute; reflexivity.
Defined.

(** ** The encoder trace is always long enough *)

Lemma bind_no_index_error {A B : Type} (m : M A) (f : A -> M B) :
  no_index_error m ->
  (forall l a, m = (l, inr a) -> no_index_error (f a)) ->
  no_index_error (bind m f).
Proof.
  unfold no_index_error. intros Hm Hf.
  destruct m as [l [e|a]]; simpl in *.
  - intros [= ->]. now apply Hm.
  - specialize (Hf l a eq_refl). now destruct (f a).
Qed.

Lemma conv_layer_no_index_error (self : UnetAudioSeparator)
    (scope : var_scope) (k n_filt : Z) (x : tensor) :
  no_index_error (conv_layer self scope k n_filt x).
Proof.
  rewrite conv_layer_eq. unfold no_index_error, conv1d. cbn [snd].
  destruct (padding self); [destruct (k <=? time_steps x)|]; discriminate.
Qed.

Lemma for_rangeM_no_index_error {S : Type} (body : Z -> S -> M S)
    (hi : Z) (n : nat) :
  (forall j s, 0 <= j < hi -> no_index_error (body j s)) ->
  forall (i : Z) (s : S),
    0 <= i -> i + Z.of_nat n <= hi -> no_index_error (for_rangeM body n i s).
Proof.
  intros Hb. induction n as [|n IH]; intros i s Hi Hn.
  - discriminate.
  - cbn [for_rangeM]. apply bind_no_index_error; [apply Hb; lia|].
    intros l s' _. apply IH; lia.
Qed.

(** Each encoder layer that succeeds appends one entry to the trace. *)
Lemma encoder_trace_length (self : UnetAudioSeparator) (n : nat) :
  forall (i : Z) (pre encs : list tensor) (x y : tensor) (l : list event),
    for_rangeM (down_block self) n i (pre, x) = (l, inr (encs, y)) ->
    List.length encs = (List.length pre + n)%nat.
Proof.
  induction n as [|n IH]; intros i pre encs x y l H.
  - injection H as _ <- _. lia.
  - cbn [for_rangeM] in H.
    apply bind_inr_inv in H as (l1 & [encs1 x1] & l2 & H1 & H2 & _).
    unfold down_block in H1.
    apply bind_inr_inv in H1 as (l3 & c & l4 & _ & [= _ <- _] & _).
    apply IH in H2. rewrite H2, length_app. cbn [List.length]. lia.
Qed.

Lemma py_index_in_range {A : Type} (l : list A) (i : Z) :
  0 <= i < Z.of_nat (List.length l) ->
  no_index_error (py_index l (- i - 1)).
Proof.
  intros Hi. unfold no_index_error, py_index.
  destruct (Z.ltb_spec (- i - 1) 0) as [_|H]; [|lia].
  destruct (Z.ltb_spec (Z.of_nat (List.length l) + (- i - 1)) 0) as [H|_]; [lia|].
  destruct (nth_error l _) eqn:E; [discriminate|].
  apply nth_error_None in E. lia.
Qed.

(** X13.  [get_output] never raises [IndexError]: whatever the
    configuration and the input, every decoder stage it reaches finds its
    entry [enc_outputs[-i-1]] in the encoder trace. *)
Theorem get_output_no_index_error
    (learned_interpolation_layer : tensor -> padding_mode -> Z -> tensor)
    (self : UnetAudioSeparator) (input : tensor) (training : bool) :
  no_index_error (get_output learned_interpolation_layer self input training).
Proof.
  unfold get_output, assemble.
  apply bind_no_index_error.
  2:{ intros l x _. unfold no_index_error, output_layer.
      destruct (output_activation self =? "tanh")%string;
        [|destruct (output_activation self =? "linear")%string];
        cbn [bind ret raise snd]; try discriminate;
        (destruct (output_type self =? "direct")%string;
         [|destruct (output_type self =? "difference")%string]);
        discriminate. }
  apply bind_no_index_error.
  { apply for_rangeM_no_index_error
      with (hi := Z.of_nat (Z.to_nat (num_layers self))); [|lia|lia].
    intros j [encs x] _. unfold down_block.
    apply bind_no_index_error; [apply conv_layer_no_index_error|].
    discriminate. }
  intros l1 [encs x] Henc.
  apply encoder_trace_length in Henc. cbn [List.length] in Henc.
  apply bind_no_index_error; [apply conv_layer_no_index_error|].
  intros l2 y _. apply bind_no_index_error; [|discriminate].
  apply for_rangeM_no_index_error
    with (hi := Z.of_nat (Z.to_nat (num_layers self))); [|lia|lia].
  intros j z Hj. unfold up_block.
  apply bind_no_index_error; [apply py_index_in_range; lia|].
  intros l3 enc _.
  apply bind_no_index_error; [unfold assert; destruct (_ || _); discriminate|].
  intros l4 u _. apply conv_layer_no_index_error.
Qed.

